(** * PMO Projects Dashboard (betaapp.py): the data pipeline in Rocq

    The dashboard script reads a CSV of projects with pandas, checks the
    thirteen required columns, parses three date columns, derives
    [Planned End] and [Overdue], filters the frame by the sidebar
    selections, counts values for the charts, cuts a slice for the timeline
    and exports the filtered frame as CSV.

    The script is embedded with the pandas primitives it calls written out
    as functions on a small frame type:
    - a frame is its column labels and its rows, a row maps a column label
      to a cell;
    - a cell is a missing value, a text, a timestamp or a boolean; the text
      of a field is kept as it is (numeric dtype inference is not part of
      the model, and text is a string of bytes);
    - a timestamp is a calendar day: the dates of the format are at
      midnight, and of the cells [today] and [now], which pandas reads as
      the time of the call, the day of the call is kept;
    - a CSV file is taken after tokenisation: the header fields and, for
      every data line, its fields;
    - the routine with which pandas sorts the counts of [value_counts] is a
      parameter of the model: it is not a stable sort, and the script does
      not choose it. *)

From stdpp Require Import gmap strings list fin_maps sorting.
From Stdlib Require Import Ascii.

Open Scope string_scope.
Open Scope list_scope.
Open Scope nat_scope.

(** ** Cells, series and frames *)

(** A calendar day. The dates read in the format [%d-%b-%Y] are at midnight;
    a cell [today] or [now] holds the time of the call, of which the day is
    kept. *)
Record Timestamp := { year : nat; month : nat; day : nat }.

(** What a cell of a frame holds: [NaN] is the missing value of a text
    column and [NaT] the missing value of a datetime column. *)
Inductive value :=
| NaN
| NaT
| Str (s : string)
| Ts (t : Timestamp)
| Bool (b : bool).

#[global] Instance Timestamp_eq_dec : EqDecision Timestamp.
Proof. solve_decision. Defined.

#[global] Instance value_eq_dec : EqDecision value.
Proof. solve_decision. Defined.

#[global] Instance value_inhabited : Inhabited value := populate NaN.

(** A row maps column labels to cells; a Series is a column of cells. *)
Record DataFrame := { columns : list string; rows : list (gmap string value) }.

#[global] Instance DataFrame_eq_dec : EqDecision DataFrame.
Proof. solve_decision. Defined.

(** The exceptions the script can raise. *)
Inductive error :=
| EmptyDataError
| ParserError (line : nat)
| ValueError (missing : list string)
| KeyError (label : string)
| NameError (name : string).

#[global] Instance error_eq_dec : EqDecision error.
Proof. solve_decision. Defined.

#[global] Instance result_ret : MRet (sum error) := λ _ x, inr x.
#[global] Instance result_bind : MBind (sum error) :=
  λ _ _ f m, match m with inl e => inl e | inr x => f x end.

(** [df[c]]: the column labelled [c]; a [KeyError] when there is none. *)
Definition col (c : string) (df : DataFrame) : error + list value :=
  if decide (c ∈ columns df) then inr ((λ r, r !!! c) <$> rows df)
  else inl (KeyError c).

(** [df[c] = s]: replaces the column, or appends it as the last one. *)
Definition add_label (c : string) (cols : list string) : list string :=
  if decide (c ∈ cols) then cols else cols ++ [c].

Definition assign (c : string) (s : list value) (df : DataFrame) : DataFrame :=
  {| columns := add_label c (columns df);
     rows := zip_with (λ r v, <[c:=v]> r) (rows df) s |}.

(** [df[mask]]: the rows at which the boolean series is true. *)
Fixpoint mask_rows {A} (l : list A) (mask : list bool) : list A :=
  match l, mask with
  | x :: l, b :: mask => if b then x :: mask_rows l mask else mask_rows l mask
  | _, _ => []
  end.

Definition select_rows (mask : list bool) (df : DataFrame) : DataFrame :=
  {| columns := columns df; rows := mask_rows (rows df) mask |}.

(** [df[cols]]: the frame restricted to the listed columns, in that order. *)
Definition select_cols (cols : list string) (df : DataFrame) : error + DataFrame :=
  match list_find (λ c, c ∉ columns df) cols with
  | Some (_, c) => inl (KeyError c)
  | None =>
      inr {| columns := cols;
             rows := (λ r, list_to_map ((λ c, (c, r !!! c)) <$> cols)) <$> rows df |}
  end.

(** [df.head(n)]. *)
Definition df_head (n : nat) (df : DataFrame) : DataFrame :=
  {| columns := columns df; rows := take n (rows df) |}.

(** ** Series operations *)

Definition isna (v : value) : bool :=
  match v with NaN | NaT => true | _ => false end.

Definition notna (s : list value) : list bool := (λ v, negb (isna v)) <$> s.

(** [a.fillna(b)]: a missing cell of [a] takes the cell of [b] in its row. *)
Definition fillna_cell (x y : value) : value := if isna x then y else x.

Definition fillna (a b : list value) : list value := zip_with fillna_cell a b.

(** [s.isin(values)], for a list of texts: a missing cell is in no list. *)
Definition isin_cell (values : list string) (v : value) : bool :=
  match v with Str x => bool_decide (x ∈ values) | _ => false end.

Definition isin (s : list value) (values : list string) : list bool :=
  isin_cell values <$> s.

Definition timestamp_ltb (a b : Timestamp) : bool :=
  (year a <? year b)
  || ((year a =? year b)
      && ((month a <? month b) || ((month a =? month b) && (day a <? day b)))).

Definition timestamp_leb (a b : Timestamp) : bool := negb (timestamp_ltb b a).

(** [s < t]: a comparison with a missing cell is false. *)
Definition lt_cell (t : Timestamp) (v : value) : bool :=
  match v with Ts d => timestamp_ltb d t | _ => false end.

Definition lt_scalar (s : list value) (t : Timestamp) : list bool :=
  lt_cell t <$> s.

(** [a & b] and [~a] on boolean series. *)
Definition and_series (a b : list bool) : list bool := zip_with andb a b.
Definition not_series (a : list bool) : list bool := negb <$> a.

(** ** [pd.to_datetime(s, format="%d-%b-%Y", errors="coerce")] *)

Definition code (c : ascii) : nat := nat_of_ascii c.

Definition is_digit (c : ascii) : bool := (48 <=? code c) && (code c <=? 57).
Definition is_nonzero_digit (c : ascii) : bool := (49 <=? code c) && (code c <=? 57).
Definition digit (c : ascii) : nat := code c - 48.

(** [%d] is [3[0-1]|[1-2]\d|0[1-9]|[1-9]| [1-9]]. *)
Definition two_char_day (a b : ascii) : bool :=
  ((code a =? 51) && (48 <=? code b) && (code b <=? 49))
  || ((49 <=? code a) && (code a <=? 50) && is_digit b)
  || ((code a =? 48) && is_nonzero_digit b)
  || ((code a =? 32) && is_nonzero_digit b).

Definition directive_d (s : string) : option (nat * string) :=
  match s with
  | String a (String b rest) =>
      if two_char_day a b
      then Some ((if code a =? 32 then 0 else digit a) * 10 + digit b, rest)
      else if is_nonzero_digit a then Some (digit a, String b rest) else None
  | String a "" => if is_nonzero_digit a then Some (digit a, "") else None
  | "" => None
  end.

Definition lower (c : ascii) : ascii :=
  if (65 <=? code c) && (code c <=? 90) then ascii_of_nat (code c + 32) else c.

Fixpoint lower_string (s : string) : string :=
  match s with
  | "" => ""
  | String c s => String (lower c) (lower_string s)
  end.

Definition MONTH_ABBR : list string :=
  ["jan"; "feb"; "mar"; "apr"; "may"; "jun"; "jul"; "aug"; "sep"; "oct"; "nov"; "dec"].

(** [%b]: an abbreviated month name, whatever the case of its letters. *)
Definition directive_b (s : string) : option (nat * string) :=
  match s with
  | String a (String b (String c rest)) =>
      match list_find (λ m, m = lower_string (String a (String b (String c "")))) MONTH_ABBR with
      | Some (i, _) => Some (S i, rest)
      | None => None
      end
  | _ => None
  end.

(** [%Y] is [\d\d\d\d]. *)
Definition directive_Y (s : string) : option (nat * string) :=
  match s with
  | String a (String b (String c (String d rest))) =>
      if is_digit a && is_digit b && is_digit c && is_digit d
      then Some (digit a * 1000 + digit b * 100 + digit c * 10 + digit d, rest)
      else None
  | _ => None
  end.

Definition literal (c : ascii) (s : string) : option string :=
  match s with
  | String a rest => if decide (a = c) then Some rest else None
  | "" => None
  end.

Definition is_leap (y : nat) : bool :=
  ((y mod 4 =? 0) && negb (y mod 100 =? 0)) || (y mod 400 =? 0).

Definition days_in_month (y m : nat) : nat :=
  match m with
  | 2 => if is_leap y then 29 else 28
  | 4 | 6 | 9 | 11 => 30
  | _ => 31
  end.

(** [date(year, month, day)]: refuses year 0 and a day the month has not.
    (The narrower range of years that a timestamp of pandas can hold
    depends on its version and is left out: it only turns more texts into
    [NaT].) *)
Definition make_date (y m d : nat) : option Timestamp :=
  if (1 <=? y) && (1 <=? d) && (d <=? days_in_month y m)
  then Some {| year := y; month := m; day := d |}
  else None.

(** The whole text has to match the format. *)
Definition strptime (s : string) : option Timestamp :=
  '(d, s) ← directive_d s;
  s ← literal "-" s;
  '(m, s) ← directive_b s;
  s ← literal "-" s;
  '(y, s) ← directive_Y s;
  if decide (s = "") then make_date y m d else None.

(** The two texts pandas reads as the time of the call, format or not. *)
Definition CLOCK_WORDS : list string := ["today"; "now"].

(** [errors="coerce"]: what does not parse becomes [NaT]. The words [today]
    and [now] are read before the format is tried, as the time of the call,
    whose day is [today]. (A text is a string of bytes: for a text outside
    ASCII, the pattern of pandas also takes digits of other scripts, which
    [strptime] does not.) *)
Definition to_datetime_cell (today : Timestamp) (v : value) : value :=
  match v with
  | Str s => if decide (s ∈ CLOCK_WORDS) then Ts today
             else match strptime s with Some t => Ts t | None => NaT end
  | Ts t => Ts t
  | NaN | NaT | Bool _ => NaT
  end.

Definition to_datetime (today : Timestamp) (s : list value) : list value :=
  to_datetime_cell today <$> s.

(** ** [pd.read_csv] and [DataFrame.to_csv], on tokenised files *)

(** A CSV file after tokenisation: the fields of the header line and the
    fields of every data line, in file order (blank lines are no data
    lines). *)
Record csv_file := { header : list string; records : list (list string) }.

#[global] Instance csv_file_eq_dec : EqDecision csv_file.
Proof. solve_decision. Defined.

(** The texts pandas reads as a missing value. *)
Definition STR_NA_VALUES : list string :=
  [""; "#N/A"; "#N/A N/A"; "#NA"; "-1.#IND"; "-1.#QNAN"; "-NaN"; "-nan";
   "1.#IND"; "1.#QNAN"; "<NA>"; "N/A"; "NA"; "NULL"; "NaN"; "None"; "n/a";
   "nan"; "null"].

Definition parse_cell (s : string) : value :=
  if decide (s ∈ STR_NA_VALUES) then NaN else Str s.

(** The row of a data line: the i-th field goes under the i-th header
    label, a line that ends early is filled up with missing values, and of
    two columns with one label the first keeps the label. *)
Fixpoint row_of_record (hdr : list string) (rec : list string) : gmap string value :=
  match hdr with
  | [] => ∅
  | c :: hdr' => <[c := parse_cell (hd "" rec)]> (row_of_record hdr' (tl rec))
  end.

(** The text of the field of a data line under a header label. *)
Fixpoint raw_field (hdr : list string) (rec : list string) (c : string) : string :=
  match hdr with
  | [] => ""
  | c' :: hdr' => if decide (c = c') then hd "" rec else raw_field hdr' (tl rec) c
  end.

(** [pd.read_csv(file)]: no frame for a file without a header line, nor for
    one with a data line of more fields than the header has. (Two readings
    of pandas are left out: it takes the leading fields of such lines as
    an index when the first data line has them, and it renames a repeated
    or empty header label. The statements below are about the files that
    are read here, and about the labels of the frame that is returned.) *)
Definition read_csv (file : csv_file) : error + DataFrame :=
  if decide (header file = []) then inl EmptyDataError
  else match list_find (λ rec, length (header file) < length rec) (records file) with
       | Some (i, _) => inl (ParserError (i + 2))
       | None => inr {| columns := header file;
                        rows := row_of_record (header file) <$> records file |}
       end.

Definition digit_char (n : nat) : ascii := ascii_of_nat (48 + n mod 10).

Definition zfill2 (n : nat) : string :=
  String (digit_char (n / 10)) (String (digit_char n) "").

Definition zfill4 (n : nat) : string :=
  String (digit_char (n / 1000)) (String (digit_char (n / 100)) (zfill2 n)).

(** A midnight timestamp is written as [YYYY-MM-DD] (years end at 9999). *)
Definition isoformat (t : Timestamp) : string :=
  zfill4 (year t) +:+ "-" +:+ zfill2 (month t) +:+ "-" +:+ zfill2 (day t).

(** The text [to_csv] writes for a cell; a missing value is an empty field.
    (A date column in which a cell holds a time of day is written with the
    time, which the model does not keep; the statements below use of a
    written date only that it is not empty and is no text of the format
    [%d-%b-%Y].) *)
Definition render (v : value) : string :=
  match v with
  | NaN | NaT => ""
  | Str s => s
  | Ts t => isoformat t
  | Bool true => "True"
  | Bool false => "False"
  end.

(** [df.to_csv(index=False)]. *)
Definition to_csv (df : DataFrame) : csv_file :=
  {| header := columns df;
     records := (λ r, (λ c, render (r !!! c)) <$> columns df) <$> rows df |}.

(** ** More frame operations *)

(** [df.dropna(subset=cols)]: drops the rows with a missing cell in one of
    the columns [cols]. *)
Definition complete (subset : list string) (r : gmap string value) : Prop :=
  Forall (λ c, isna (r !!! c) = false) subset.

#[global] Instance complete_dec subset r : Decision (complete subset r).
Proof. unfold complete. apply _. Defined.

Definition dropna (subset : list string) (df : DataFrame) : error + DataFrame :=
  match list_find (λ c, c ∉ columns df) subset with
  | Some (_, c) => inl (KeyError c)
  | None => inr {| columns := columns df; rows := filter (complete subset) (rows df) |}
  end.

(** The order of [sort_values] on a datetime column: ascending, the missing
    values last. *)
Definition value_leb (a b : value) : bool :=
  match a, b with
  | Ts x, Ts y => timestamp_leb x y
  | Ts _, _ => true
  | _, Ts _ => false
  | _, _ => true
  end.

Fixpoint insert_by {A} (leb : A → A → bool) (x : A) (l : list A) : list A :=
  match l with
  | [] => [x]
  | y :: l' => if leb x y then x :: y :: l' else y :: insert_by leb x l'
  end.

(** Insertion from the right: equal keys keep their order. *)
Definition sort_by {A} (leb : A → A → bool) (l : list A) : list A :=
  foldr (insert_by leb) [] l.

Definition row_leb (c : string) (r1 r2 : gmap string value) : bool :=
  value_leb (r1 !!! c) (r2 !!! c).

(** [df.sort_values(c)]. The sort of pandas need not keep rows of equal
    key in the order of the table; the statements below use that the
    result is sorted and holds the same rows, never how it orders equal
    keys. *)
Definition sort_values (c : string) (df : DataFrame) : error + DataFrame :=
  if decide (c ∈ columns df)
  then inr {| columns := columns df; rows := sort_by (row_leb c) (rows df) |}
  else inl (KeyError c).

(** Counting with a table in order of first appearance. *)
Fixpoint bump (k : value) (table : list (value * nat)) : list (value * nat) :=
  match table with
  | [] => [(k, 1)]
  | (k', n) :: table' =>
      if decide (k = k') then (k', S n) :: table' else (k', n) :: bump k table'
  end.

Definition tally (s : list value) : list (value * nat) :=
  foldl (λ table k, if isna k then table else bump k table) [] s.

(** [s.value_counts()]: the missing values are left out, the distinct values
    are counted in order of first appearance, and the table is sorted by
    descending count. The sorting routine is that of the library, [sort]
    here; it is not stable, so what is known of it is [descending]: it
    returns the entries it is given, in descending order of count, and
    leaves values of equal count in an order of its own. *)
Definition value_counts (sort : list (value * nat) → list (value * nat))
    (s : list value) : list (value * nat) :=
  sort (tally s).

Definition descending (sort : list (value * nat) → list (value * nat)) : Prop :=
  ∀ table, sort table ≡ₚ table ∧ StronglySorted (λ p q, q.2 ≤ p.2) (sort table).

(** Two such routines: one keeps values of equal count in the order of the
    table, the other turns them round. *)
Definition keep_ties : list (value * nat) → list (value * nat) :=
  sort_by (λ p q, q.2 <=? p.2).

Definition swap_ties : list (value * nat) → list (value * nat) :=
  sort_by (λ p q, q.2 <? p.2).

(** ** The script *)

Definition REQUIRED_COLS : list string :=
  ["ID"; "Name"; "Project Vendor"; "Project Priority"; "Business Owner";
   "Project Initiation Date"; "Target Completion Date"; "Revised Timeline";
   "Objective"; "Project Current Status"; "Project Category"; "Project Manager";
   "Project Custodian"].

Definition DATE_COLS : list string :=
  ["Project Initiation Date"; "Target Completion Date"; "Revised Timeline"].

(** [load_data(file)], with the day of the call as [today]. *)
Definition load_data (today : Timestamp) (file : csv_file) : error + DataFrame :=
  df ← read_csv file;
  let missing := filter (λ c, c ∉ columns df) REQUIRED_COLS in
  if decide (missing ≠ []) then inl (ValueError missing) else
  df ← foldl (λ acc c, df ← acc; s ← col c df; mret (assign c (to_datetime today s) df))
             (inr df) DATE_COLS;
  revised ← col "Revised Timeline" df;
  target ← col "Target Completion Date" df;
  let df := assign "Planned End" (fillna revised target) df in
  planned ← col "Planned End" df;
  status ← col "Project Current Status" df;
  let overdue :=
    and_series (and_series (notna planned) (lt_scalar planned today))
               (not_series (isin status ["Live"; "Withdraw"])) in
  mret (assign "Overdue" (Bool <$> overdue) df).

(** The sidebar selections, one list of chosen values per filter. *)
Record selections := {
  status_sel : list string;
  priority_sel : list string;
  category_sel : list string;
  owner_sel : list string;
  manager_sel : list string;
  vendor_sel : list string
}.

(** [if sel: frame = frame[frame[c].isin(sel)]]. *)
Definition filter_isin (c : string) (sel : list string) (df : DataFrame)
  : error + DataFrame :=
  if decide (sel = []) then inr df
  else s ← col c df; mret (select_rows (isin s sel) df).

Definition filtered (sel : selections) (df : DataFrame) : error + DataFrame :=
  df ← filter_isin "Project Current Status" (status_sel sel) df;
  df ← filter_isin "Project Priority" (priority_sel sel) df;
  df ← filter_isin "Project Category" (category_sel sel) df;
  df ← filter_isin "Business Owner" (owner_sel sel) df;
  df ← filter_isin "Project Manager" (manager_sel sel) df;
  filter_isin "Project Vendor" (vendor_sel sel) df.

(** [overdue_df = filtered[filtered["Overdue"] == True]]. *)
Definition overdue_df (df : DataFrame) : error + DataFrame :=
  s ← col "Overdue" df;
  mret (select_rows ((λ v, bool_decide (v = Bool true)) <$> s) df).

(** [frame[c].value_counts().reset_index()], the table of the charts by
    status, priority and category and of the two overdue charts. *)
Definition column_counts (sort : list (value * nat) → list (value * nat))
    (c : string) (df : DataFrame) : error + list (value * nat) :=
  s ← col c df; mret (value_counts sort s).

Definition status_counts sort := column_counts sort "Project Current Status".
Definition pr_counts sort := column_counts sort "Project Priority".
Definition cat_counts sort := column_counts sort "Project Category".
Definition owner_counts sort := column_counts sort "Business Owner".

(** [frame[c].value_counts().head(n).reset_index()]. *)
Definition top_counts (sort : list (value * nat) → list (value * nat))
    (c : string) (n : nat) (df : DataFrame) : error + list (value * nat) :=
  s ← col c df; mret (take n (value_counts sort s)).

(** The chart of projects per manager shows the top ten. *)
Definition mgr_counts sort := top_counts sort "Project Manager" 10.

(** [timeline_df]: the rows with both dates, cut to [show_n] rows. *)
Definition timeline_df (show_n : nat) (df : DataFrame) : error + DataFrame :=
  df ← dropna ["Project Initiation Date"; "Planned End"] df;
  mret (df_head show_n df).

(** What the timeline chart is given: [timeline_df] sorted by start date
    (nothing is drawn when [timeline_df] is empty). *)
Definition timeline_rows (show_n : nat) (df : DataFrame) : error + DataFrame :=
  t ← timeline_df show_n df;
  if decide (0 < length (rows t)) then sort_values "Project Initiation Date" t
  else mret {| columns := columns t; rows := [] |}.

(** [to_csv_bytes(df_in)]. *)
Definition to_csv_bytes (df_in : DataFrame) : csv_file := to_csv df_in.

(** [to_csv_bytes(filtered[REQUIRED_COLS])]. *)
Definition export_filtered (df : DataFrame) : error + csv_file :=
  d ← select_cols REQUIRED_COLS df; mret (to_csv_bytes d).

(** The last download button of the script: [to_csv_bytes] is defined in the
    branch that runs when there are overdue rows, and used after it. *)
Definition download_filtered (df : DataFrame) : error + csv_file :=
  o ← overdue_df df;
  if decide (rows o = []) then inl (NameError "to_csv_bytes")
  else export_filtered df.

(** ** Vocabulary of the statements *)

(** What [load_data] does to one row of the frame [read_csv] returns. *)
Definition parse_date_col (today : Timestamp) (c : string) (r : gmap string value)
  : gmap string value :=
  <[c := to_datetime_cell today (r !!! c)]> r.

Definition with_planned_end (r : gmap string value) : gmap string value :=
  <["Planned End" :=
      fillna_cell (r !!! "Revised Timeline") (r !!! "Target Completion Date")]> r.

Definition with_overdue (today : Timestamp) (r : gmap string value)
  : gmap string value :=
  <["Overdue" :=
      Bool (negb (isna (r !!! "Planned End")) && lt_cell today (r !!! "Planned End")
            && negb (isin_cell ["Live"; "Withdraw"] (r !!! "Project Current Status")))]> r.

Definition load_row (today : Timestamp) (r : gmap string value) : gmap string value :=
  with_overdue today
    (with_planned_end
       (parse_date_col today "Revised Timeline"
          (parse_date_col today "Target Completion Date"
             (parse_date_col today "Project Initiation Date" r)))).

(** The six columns the sidebar filters on. *)
Definition FILTER_COLS : list string :=
  ["Project Current Status"; "Project Priority"; "Project Category";
   "Business Owner"; "Project Manager"; "Project Vendor"].

(** The required columns that hold no date. *)
Definition TEXT_COLS : list string :=
  ["ID"; "Name"; "Project Vendor"; "Project Priority"; "Business Owner";
   "Objective"; "Project Current Status"; "Project Category"; "Project Manager";
   "Project Custodian"].

(** A cell passes a selection when nothing is selected, or when it is one of
    the selected texts. *)
Definition passes (sel : list string) (v : value) : Prop :=
  sel = [] ∨ match v with Str x => x ∈ sel | _ => False end.

#[global] Instance passes_dec sel v : Decision (passes sel v).
Proof. unfold passes. destruct v; apply _. Defined.

(** The selections, each with the column it filters. *)
Definition chosen (sel : selections) : list (string * list string) :=
  [("Project Current Status", status_sel sel);
   ("Project Priority", priority_sel sel);
   ("Project Category", category_sel sel);
   ("Business Owner", owner_sel sel);
   ("Project Manager", manager_sel sel);
   ("Project Vendor", vendor_sel sel)].

(** A row is kept when its cell passes the selection of every filter. *)
Definition keep_row (sel : selections) (r : gmap string value) : Prop :=
  Forall (λ p, passes p.2 (r !!! p.1)) (chosen sel).

#[global] Instance keep_row_dec sel r : Decision (keep_row sel r).
Proof. unfold keep_row. apply _. Defined.

(** The timeline slice in the order of the specification: the rows with
    both dates, sorted by start date, then cut to [limit] rows. *)
Definition timelineSlice (limit : nat) (df : DataFrame) : list (gmap string value) :=
  take limit
    (sort_by (row_leb "Project Initiation Date")
       (filter (complete ["Project Initiation Date"; "Planned End"]) (rows df))).

(** How often a value occurs in a series. *)
Definition count_val (v : value) (s : list value) : nat :=
  length (filter (λ x, x = v) s).

(** The values of a series that are not missing, each once, in the order in
    which they are first met. *)
Definition first_seen (s : list value) : list value :=
  foldl (λ seen k, if isna k then seen
                   else if decide (k ∈ seen) then seen else seen ++ [k]) [] s.

(** [a] is met in [s] before [b] is met for the first time. *)
Definition first_before (s : list value) (a b : value) : Prop :=
  ∃ s1 s2, s = s1 ++ a :: s2 ∧ (a ∉ s1) ∧ (b ∉ s1).

(** The order of the counts: more frequent first, and of two values of one
    frequency the one met first. *)
Definition counts_order (s : list value) (p q : value * nat) : Prop :=
  q.2 < p.2 ∨ (p.2 = q.2 ∧ first_before s p.1 q.1).

(** The texts of the format [%d-%b-%Y], field by field. *)
Definition day_field (s : string) : Prop :=
  match s with
  | String a "" => is_nonzero_digit a = true
  | String a (String b "") =>
      (a = "3"%char ∧ (b = "0"%char ∨ b = "1"%char))
      ∨ ((a = "1"%char ∨ a = "2"%char) ∧ is_digit b = true)
      ∨ ((a = "0"%char ∨ a = " "%char) ∧ is_nonzero_digit b = true)
  | _ => False
  end.

Definition month_field (s : string) : Prop :=
  String.length s = 3 ∧ lower_string s ∈ MONTH_ABBR.

Definition year_field (s : string) : Prop :=
  match s with
  | String a (String b (String c (String d ""))) =>
      is_digit a = true ∧ is_digit b = true ∧ is_digit c = true ∧ is_digit d = true
  | _ => False
  end.

Definition matches_format (s : string) : Prop :=
  ∃ d b y, s = d +:+ "-" +:+ b +:+ "-" +:+ y
           ∧ day_field d ∧ month_field b ∧ year_field y.

(** A text of ASCII characters: each of its bytes is a character. *)
Fixpoint ascii_text (s : string) : bool :=
  match s with
  | "" => true
  | String a s => (code a <? 128) && ascii_text s
  end.

(** ** The rest of the script *)

(** The texts of a series, the other cells left out (the columns the
    sidebar reads hold texts and missing values only). *)
Definition texts (s : list value) : list string :=
  omap (λ v, match v with Str x => Some x | _ => None end) s.

(** [sorted(df[c].dropna().unique().tolist())], the choices of a sidebar
    filter. *)
Definition sidebar_options (c : string) (df : DataFrame) : error + list string :=
  s ← col c df; mret (sort_by String.leb (texts (first_seen s))).

(** [(filtered[c] == x).sum()]. *)
Definition count_eq (c x : string) (df : DataFrame) : error + nat :=
  s ← col c df; mret (length (filter (λ v, v = Str x) s)).

(** [filtered["Overdue"].sum()] on the boolean column [load_data] makes. *)
Definition count_overdue (df : DataFrame) : error + nat :=
  s ← col "Overdue" df; mret (length (filter (λ v, v = Bool true) s)).

(** The five numbers of the KPI row. *)
Record kpis := {
  total_projects : nat;
  live_count : nat;
  on_hold : nat;
  withdrawn : nat;
  overdue : nat
}.

Definition kpi_row (df : DataFrame) : error + kpis :=
  live ← count_eq "Project Current Status" "Live" df;
  hold ← count_eq "Project Current Status" "On Hold" df;
  wd ← count_eq "Project Current Status" "Withdraw" df;
  od ← count_overdue df;
  mret {| total_projects := length (rows df); live_count := live; on_hold := hold;
          withdrawn := wd; overdue := od |}.

(** [if x != "All": frame = frame[frame[c] == x]], the two select boxes of
    the overdue section. *)
Definition filter_eq (c x : string) (df : DataFrame) : error + DataFrame :=
  if decide (x = "All") then inr df
  else s ← col c df; mret (select_rows ((λ v, bool_decide (v = Str x)) <$> s) df).

Definition overdue_filtered (owner_filter manager_filter : string) (odf : DataFrame)
  : error + DataFrame :=
  df ← filter_eq "Business Owner" owner_filter odf;
  filter_eq "Project Manager" manager_filter df.

(** [["All"] + sorted(overdue_df[c].dropna().unique().tolist())]. *)
Definition selectbox_options (c : string) (odf : DataFrame) : error + list string :=
  o ← sidebar_options c odf; mret ("All" :: o).

(** The columns of the overdue table and of its two downloads. *)
Definition OVERDUE_COLS : list string :=
  ["ID"; "Name"; "Business Owner"; "Project Manager"; "Target Completion Date";
   "Revised Timeline"; "Project Current Status"].

(** [to_csv_bytes(frame[[...]])] for the overdue downloads. *)
Definition export_overdue (df : DataFrame) : error + csv_file :=
  d ← select_cols OVERDUE_COLS df; mret (to_csv_bytes d).

(** A timestamp of the calendar. *)
Definition valid_date (t : Timestamp) : Prop :=
  1 ≤ year t < 10 * 1000 ∧ 1 ≤ month t ≤ 12 ∧ 1 ≤ day t ≤ days_in_month (year t) (month t).

(** No selection at all. *)
Definition no_selection : selections :=
  {| status_sel := []; priority_sel := []; category_sel := [];
     owner_sel := []; manager_sel := []; vendor_sel := [] |}.

(** ** A sample run *)

Definition sample_today : Timestamp := {| year := 2024; month := 6; day := 1 |}.

(** Three projects: one without a status whose target date has passed, one
    that is live, and one with its target date in another format. *)
Definition sample_file : csv_file :=
  {| header := REQUIRED_COLS;
     records :=
       [["1"; "Alpha"; "V1"; "High"; "Ann"; "05-Jan-2021"; "01-Jan-2020"; "";
         "obj"; ""; "Cat"; "Bob"; "Cy"];
        ["2"; "Beta"; "V1"; "Low"; "Ann"; "05-Jan-2019"; "01-Jan-2020"; "01-Feb-2021";
         "obj"; "Live"; "Cat"; "Bob"; "Cy"];
        ["3"; "Gamma"; "V2"; "Low"; "Dan"; "07-Mar-2020"; "2020-01-01"; "09-Sep-2022";
         "NA"; "In Progress"; "Cat"; "Eve"; "Cy"]] |}.

(** The same file without its [Name] and [Objective] columns. *)
Definition sample_short_file : csv_file :=
  {| header := ["ID"; "Project Vendor"; "Project Priority"; "Business Owner";
                "Project Initiation Date"; "Target Completion Date";
                "Revised Timeline"; "Project Current Status"; "Project Category";
                "Project Manager"; "Project Custodian"];
     records := [["1"; "V1"; "High"; "Ann"; "05-Jan-2021"; "01-Jan-2020"; "";
                  ""; "Cat"; "Bob"; "Cy"]] |}.

(** One project whose start date reads [today], whose target date reads
    [now] and whose revised date is no date. *)
Definition sample_clock_file : csv_file :=
  {| header := REQUIRED_COLS;
     records :=
       [["4"; "Delta"; "V1"; "High"; "Ann"; "today"; "now"; "soon";
         "obj"; "In Progress"; "Cat"; "Bob"; "Cy"]] |}.

Definition frame_of (m : error + DataFrame) : DataFrame :=
  match m with
  | inr df => df
  | inl _ => {| columns := []; rows := [] |}
  end.

Definition sample_raw : DataFrame := frame_of (read_csv sample_file).
Definition sample_frame : DataFrame := frame_of (load_data sample_today sample_file).
Definition sample_row : gmap string value := default ∅ (rows sample_frame !! 0).

Definition sample_selections : selections :=
  {| status_sel := []; priority_sel := ["Low"]; category_sel := [];
     owner_sel := []; manager_sel := []; vendor_sel := ["V1"; "V2"] |}.

Definition csv_of (m : error + csv_file) : csv_file :=
  match m with
  | inr csv => csv
  | inl _ => {| header := []; records := [] |}
  end.

(** The sample filtered to the projects of low priority, and its download. *)
Definition sample_filtered : DataFrame :=
  frame_of (filtered sample_selections sample_frame).

Definition sample_download : csv_file := csv_of (download_filtered sample_filtered).

(** * Properties *)

(** ** Frames and the error monad *)

Section frames.
Implicit Types (df : DataFrame) (r : gmap string value) (c : string).

Lemma bind_inr {A B} (x : A) (f : A → error + B) : (inr x ≫= f) = f x.
Proof. reflexivity. Qed.

Lemma bind_inl {A B} (e : error) (f : A → error + B) : (inl e ≫= f) = inl e.
Proof. reflexivity. Qed.

Lemma bind_inr_inv {A B} (m : error + A) (f : A → error + B) (y : B) :
  m ≫= f = inr y → ∃ x, m = inr x ∧ f x = inr y.
Proof. destruct m as [e|x]; [discriminate | eauto]. Qed.

Lemma col_ok c df : c ∈ columns df → col c df = inr ((λ r, r !!! c) <$> rows df).
Proof. intros. unfold col. by rewrite decide_True. Qed.

Lemma elem_of_add_label c c' cols : c ∈ add_label c' cols ↔ c = c' ∨ c ∈ cols.
Proof.
  unfold add_label. case_decide.
  - split; [auto|]. by intros [->|].
  - rewrite elem_of_app, list_elem_of_singleton. tauto.
Qed.

Lemma add_label_elem c cols : c ∈ cols → add_label c cols = cols.
Proof. intros. unfold add_label. by rewrite decide_True. Qed.

Lemma assign_rowwise c (g : gmap string value → value) cols l :
  assign c (g <$> l) {| columns := cols; rows := l |}
  = {| columns := add_label c cols; rows := (λ r, <[c := g r]> r) <$> l |}.
Proof. unfold assign. cbn [rows columns]. by rewrite zip_with_fmap_r, zip_with_diag. Qed.

Lemma fillna_rowwise {A} (f g : A → value) (l : list A) :
  fillna (f <$> l) (g <$> l) = (λ x, fillna_cell (f x) (g x)) <$> l.
Proof. unfold fillna. by rewrite zip_with_fmap_l, zip_with_fmap_r, zip_with_diag. Qed.

Lemma and_series_rowwise {A} (f g : A → bool) (l : list A) :
  and_series (f <$> l) (g <$> l) = (λ x, f x && g x) <$> l.
Proof. unfold and_series. by rewrite zip_with_fmap_l, zip_with_fmap_r, zip_with_diag. Qed.

Lemma mask_rows_rowwise {A} (f : A → bool) (l : list A) :
  mask_rows l (f <$> l) = filter (λ x, f x = true) l.
Proof.
  induction l as [|x l IH]; [done|]. cbn [fmap list_fmap mask_rows].
  rewrite filter_cons, <- IH. destruct (f x); by case_decide.
Qed.

Lemma read_csv_inv file raw :
  read_csv file = inr raw →
  header file ≠ []
  ∧ Forall (λ rec, length rec ≤ length (header file)) (records file)
  ∧ raw = {| columns := header file; rows := row_of_record (header file) <$> records file |}.
Proof.
  unfold read_csv. case_decide; [discriminate|].
  destruct (list_find _ _) as [[i rec]|] eqn:Hfind; [discriminate|].
  intros [= <-]. split_and!; [done| |done].
  apply list_find_None in Hfind. eapply Forall_impl; [exact Hfind|]. simpl. lia.
Qed.

Lemma read_csv_ok file :
  header file ≠ [] →
  Forall (λ rec, length rec ≤ length (header file)) (records file) →
  read_csv file
  = inr {| columns := header file; rows := row_of_record (header file) <$> records file |}.
Proof.
  intros Hh Hr. unfold read_csv. rewrite decide_False by done.
  destruct (list_find _ _) as [[i rec]|] eqn:Hfind; [|done].
  apply list_find_Some in Hfind as (Hi & Hlt & _).
  apply list_elem_of_lookup_2 in Hi. rewrite Forall_forall in Hr. apply Hr in Hi. lia.
Qed.

Lemma filter_absent_nil (cols l : list string) :
  Forall (λ c, c ∈ cols) l → filter (λ c, c ∉ cols) l = [].
Proof.
  induction 1 as [|c l Hc _ IH]; [done|]. rewrite filter_cons_False; [done|]. by intros ?.
Qed.

Lemma elem_of_filter_absent (cols l : list string) c :
  c ∈ filter (λ c, c ∉ cols) l ↔ c ∈ l ∧ c ∉ cols.
Proof. rewrite list_elem_of_filter. tauto. Qed.

Lemma parse_step today c df :
  c ∈ columns df →
  (s ← col c df; mret (assign c (to_datetime today s) df))
  = inr {| columns := columns df; rows := parse_date_col today c <$> rows df |}.
Proof.
  destruct df as [cols l]. cbn [columns rows].
  intros Hc. rewrite col_ok, bind_inr by done. unfold to_datetime. cbn [rows].
  rewrite <- list_fmap_compose. unfold mret, result_ret.
  by rewrite assign_rowwise, add_label_elem.
Qed.

Lemma load_data_ok today file raw :
  read_csv file = inr raw →
  Forall (λ c, c ∈ header file) REQUIRED_COLS →
  load_data today file
  = inr {| columns := add_label "Overdue" (add_label "Planned End" (header file));
           rows := load_row today <$> rows raw |}.
Proof.
  intros Hread Hreq. unfold load_data. rewrite Hread, bind_inr.
  apply read_csv_inv in Hread as (_ & _ & ->). cbn [columns rows].
  cbv zeta. rewrite filter_absent_nil by done. rewrite decide_False by (by intros []).
  assert (Hin : ∀ c, c ∈ REQUIRED_COLS → c ∈ header file).
  { by apply Forall_forall. }
  cbn [foldl DATE_COLS]. rewrite bind_inr.
  rewrite parse_step by (apply Hin; set_solver).
  rewrite bind_inr, parse_step by (apply Hin; set_solver).
  rewrite bind_inr, parse_step by (apply Hin; set_solver).
  rewrite bind_inr.
  remember (parse_date_col today "Revised Timeline" <$> _) as L eqn:HL.
  rewrite !col_ok by (cbn [columns]; apply Hin; set_solver).
  rewrite !bind_inr. cbn [rows columns].
  rewrite fillna_rowwise, assign_rowwise.
  remember ((λ r, <["Planned End" := _]> r) <$> L) as L' eqn:HL'.
  rewrite !col_ok
    by (cbn [columns]; rewrite elem_of_add_label; (by left) || (right; apply Hin; set_solver)).
  rewrite !bind_inr. cbn [rows columns].
  unfold notna, lt_scalar, isin, not_series.
  rewrite <- !list_fmap_compose, !and_series_rowwise, <- !list_fmap_compose, assign_rowwise.
  unfold mret, result_ret. do 2 f_equal. subst L' L.
  cbn [rows columns]. rewrite <- !list_fmap_compose. reflexivity.
Qed.
End frames.

(** ** [load_data], row by row *)

Section load.
Implicit Types (df : DataFrame) (r : gmap string value) (c : string).

Lemma load_data_missing today file raw :
  read_csv file = inr raw →
  ¬ Forall (λ c, c ∈ header file) REQUIRED_COLS →
  load_data today file
  = inl (ValueError (filter (λ c, c ∉ header file) REQUIRED_COLS)).
Proof.
  intros Hread Hreq. unfold load_data. rewrite Hread, bind_inr.
  apply read_csv_inv in Hread as (_ & _ & ->). cbn [columns rows]. cbv zeta.
  rewrite decide_True; [done|]. intros Hnil. apply Hreq, Forall_forall.
  intros c Hc. destruct (decide (c ∈ header file)) as [|Hn]; [done|].
  by destruct (filter_nil_not_elem_of _ _ c Hnil Hn).
Qed.

Lemma load_data_inv today file df :
  load_data today file = inr df →
  ∃ raw, read_csv file = inr raw
         ∧ Forall (λ c, c ∈ header file) REQUIRED_COLS
         ∧ df = {| columns := add_label "Overdue" (add_label "Planned End" (header file));
                   rows := load_row today <$> rows raw |}.
Proof.
  intros H. destruct (read_csv file) as [e|raw] eqn:Hread.
  { unfold load_data in H. rewrite Hread in H. discriminate. }
  destruct (decide (Forall (λ c, c ∈ header file) REQUIRED_COLS)) as [Hreq|Hreq].
  - rewrite (load_data_ok _ _ _ Hread Hreq) in H. injection H as <-. eauto.
  - rewrite (load_data_missing _ _ _ Hread Hreq) in H. discriminate.
Qed.

Lemma loaded_row today file df r :
  load_data today file = inr df → r ∈ rows df →
  ∃ rec, rec ∈ records file ∧ r = load_row today (row_of_record (header file) rec).
Proof.
  intros (raw & Hread & _ & ->)%load_data_inv Hr. cbn [rows] in Hr.
  apply read_csv_inv in Hread as (_ & _ & ->). cbn [rows] in Hr.
  apply list_elem_of_fmap in Hr as (r0 & -> & Hr).
  apply list_elem_of_fmap in Hr as (rec & -> & Hr). eauto.
Qed.

Lemma row_of_record_lookup hdr rec c :
  row_of_record hdr rec !!! c = parse_cell (raw_field hdr rec c).
Proof.
  revert rec. induction hdr as [|c' hdr IH]; intros rec; cbn [row_of_record raw_field].
  - by rewrite lookup_total_empty.
  - case_decide as Hc.
    + subst c'. by rewrite lookup_total_insert_eq.
    + by rewrite lookup_total_insert_ne.
Qed.

Example row_of_short_record :
  row_of_record ["A"; "B"; "C"] ["x"; "NA"] = {[ "A" := Str "x"; "B" := NaN; "C" := NaN ]}.
Proof. compute_done. Qed.

Lemma load_row_overdue today r :
  load_row today r !!! "Overdue"
  = Bool (negb (isna (load_row today r !!! "Planned End"))
          && lt_cell today (load_row today r !!! "Planned End")
          && negb (isin_cell ["Live"; "Withdraw"] (r !!! "Project Current Status"))).
Proof.
  unfold load_row, with_overdue, with_planned_end, parse_date_col.
  repeat first [rewrite lookup_total_insert_eq | rewrite lookup_total_insert_ne by discriminate].
  done.
Qed.

Lemma load_row_planned_end today r :
  load_row today r !!! "Planned End"
  = fillna_cell (load_row today r !!! "Revised Timeline")
                (load_row today r !!! "Target Completion Date").
Proof.
  unfold load_row, with_overdue, with_planned_end, parse_date_col.
  repeat first [rewrite lookup_total_insert_eq | rewrite lookup_total_insert_ne by discriminate].
  done.
Qed.

Lemma load_row_date today r c :
  c ∈ DATE_COLS → load_row today r !!! c = to_datetime_cell today (r !!! c).
Proof.
  unfold DATE_COLS. rewrite !elem_of_cons, elem_of_nil. intros [->|[->|[->|[]]]];
  unfold load_row, with_overdue, with_planned_end, parse_date_col;
  repeat first [rewrite lookup_total_insert_eq | rewrite lookup_total_insert_ne by discriminate];
  done.
Qed.

Lemma load_row_text today r c :
  c ∉ DATE_COLS → c ≠ "Planned End" → c ≠ "Overdue" → load_row today r !!! c = r !!! c.
Proof.
  unfold DATE_COLS. rewrite !not_elem_of_cons. intros (? & ? & ? & _) ? ?.
  unfold load_row, with_overdue, with_planned_end, parse_date_col.
  by rewrite !lookup_total_insert_ne.
Qed.

Lemma text_col_plain c :
  c ∈ TEXT_COLS → (c ∉ DATE_COLS) ∧ c ≠ "Planned End" ∧ c ≠ "Overdue".
Proof.
  revert c. apply Forall_forall. compute_done.
Qed.

Lemma to_datetime_cell_cases today v :
  to_datetime_cell today v = NaT ∨ ∃ t, to_datetime_cell today v = Ts t.
Proof.
  destruct v as [| |s|t|b]; cbn [to_datetime_cell]; eauto.
  case_decide; [eauto|]. destruct (strptime s); eauto.
Qed.

Lemma isin_cell_live v :
  isin_cell ["Live"; "Withdraw"] v = false ↔ v ≠ Str "Live" ∧ v ≠ Str "Withdraw".
Proof.
  destruct v as [| |s|t|b]; simpl; try (split; [intros _; split; discriminate | done]).
  rewrite bool_decide_eq_false, !not_elem_of_cons. split.
  - intros (? & ? & _). split; congruence.
  - intros [? ?]. split_and!; [congruence..|apply not_elem_of_nil].
Qed.
End load.

(** ** The derived columns *)

Section derived.
Implicit Types (df : DataFrame) (r : gmap string value) (c : string).

Lemma load_row_overdue_Some today r :
  load_row today r !! "Overdue"
  = Some (Bool (negb (isna (load_row today r !!! "Planned End"))
                && lt_cell today (load_row today r !!! "Planned End")
                && negb (isin_cell ["Live"; "Withdraw"]
                           (load_row today r !!! "Project Current Status")))).
Proof.
  unfold load_row, with_overdue. rewrite lookup_insert_eq.
  by rewrite !lookup_total_insert_ne by discriminate.
Qed.

Lemma loaded_columns today file df :
  load_data today file = inr df →
  Forall (λ c, c ∈ columns df) REQUIRED_COLS
  ∧ "Planned End" ∈ columns df ∧ "Overdue" ∈ columns df.
Proof.
  intros (raw & _ & Hreq & ->)%load_data_inv. cbn [columns]. split_and!.
  - eapply Forall_impl; [exact Hreq|]. intros c Hc. rewrite !elem_of_add_label. auto.
  - rewrite !elem_of_add_label. auto.
  - rewrite !elem_of_add_label. auto.
Qed.

Lemma lt_cell_true today v :
  lt_cell today v = true ↔ ∃ d, v = Ts d ∧ timestamp_ltb d today = true.
Proof.
  destruct v as [| |s|t|b]; simpl; try (split; [discriminate | by intros (? & ? & ?)]).
  split; [eauto|]. by intros (d & [= ->] & ?).
Qed.

(** C2. In every row of the frame [load_data] returns, [Planned End] is
    [Revised Timeline] when that is not missing, and else it is
    [Target Completion Date], missing or not. *)
Theorem planned_end_is_revised_else_target today file df r :
  load_data today file = inr df → r ∈ rows df →
  (isna (r !!! "Revised Timeline") = false
   → r !!! "Planned End" = r !!! "Revised Timeline")
  ∧ (isna (r !!! "Revised Timeline") = true
     → r !!! "Planned End" = r !!! "Target Completion Date").
Proof.
  intros Hload Hr. destruct (loaded_row _ _ _ _ Hload Hr) as (rec & _ & ->).
  rewrite load_row_planned_end. unfold fillna_cell.
  split; intros ->; reflexivity.
Qed.

Lemma planned_end_is_revised_else_target_witness :
  (isna (sample_row !!! "Revised Timeline") = false
   → sample_row !!! "Planned End" = sample_row !!! "Revised Timeline")
  ∧ (isna (sample_row !!! "Revised Timeline") = true
     → sample_row !!! "Planned End" = sample_row !!! "Target Completion Date").
Proof.
  apply (planned_end_is_revised_else_target sample_today sample_file sample_frame).
  - compute_done.
  - compute_done.
Defined.

(** C10. In every row of the frame [load_data] returns, [Overdue] holds a
    boolean, whatever is missing in the row, and it is false when
    [Planned End] is missing. *)
Theorem overdue_is_a_boolean today file df r :
  load_data today file = inr df → r ∈ rows df →
  ∃ b, r !! "Overdue" = Some (Bool b)
       ∧ (isna (r !!! "Planned End") = true → b = false).
Proof.
  intros Hload Hr. destruct (loaded_row _ _ _ _ Hload Hr) as (rec & _ & ->).
  eexists. split; [apply load_row_overdue_Some|].
  by intros ->.
Qed.

Lemma overdue_is_a_boolean_witness :
  ∃ b, sample_row !! "Overdue" = Some (Bool b)
       ∧ (isna (sample_row !!! "Planned End") = true → b = false).
Proof.
  apply (overdue_is_a_boolean sample_today sample_file sample_frame).
  - compute_done.
  - compute_done.
Defined.

(** C1, as amended. In every row of the frame [load_data] returns,
    [Overdue] is true exactly when [Planned End] is a date strictly before
    [today] and the status is neither the text [Live] nor the text
    [Withdraw]; it is false in every other case. A missing status is not
    one of the two texts. *)
Theorem overdue_iff today file df r :
  load_data today file = inr df → r ∈ rows df →
  (r !!! "Overdue" = Bool true ∨ r !!! "Overdue" = Bool false)
  ∧ (r !!! "Overdue" = Bool true
     ↔ ∃ d, r !!! "Planned End" = Ts d
            ∧ timestamp_ltb d today = true
            ∧ r !!! "Project Current Status" ≠ Str "Live"
            ∧ r !!! "Project Current Status" ≠ Str "Withdraw").
Proof.
  intros Hload Hr. destruct (loaded_row _ _ _ _ Hload Hr) as (rec & _ & ->).
  rewrite (lookup_total_correct _ _ _ (load_row_overdue_Some _ _)).
  split; [destruct (_ && _); auto|].
  split.
  - intros [= H]. apply andb_true_iff in H as [H Hst].
    apply andb_true_iff in H as [_ Hlt].
    apply lt_cell_true in Hlt as (d & Hd & Hlt).
    apply negb_true_iff, isin_cell_live in Hst. eauto.
  - intros (d & Hd & Hlt & Hst). f_equal. rewrite Hd. simpl. rewrite Hlt. simpl.
    apply negb_true_iff, isin_cell_live. done.
Qed.

Lemma overdue_iff_witness :
  (sample_row !!! "Overdue" = Bool true ∨ sample_row !!! "Overdue" = Bool false)
  ∧ (sample_row !!! "Overdue" = Bool true
     ↔ ∃ d, sample_row !!! "Planned End" = Ts d
            ∧ timestamp_ltb d sample_today = true
            ∧ sample_row !!! "Project Current Status" ≠ Str "Live"
            ∧ sample_row !!! "Project Current Status" ≠ Str "Withdraw").
Proof.
  apply (overdue_iff sample_today sample_file sample_frame).
  - compute_done.
  - compute_done.
Defined.

(** C1, as stated, fails: the first project of the sample has no status and
    a target date in the past, and it is overdue. *)
Lemma overdue_null_status_counterexample :
  ¬ (∀ today file df r,
       load_data today file = inr df → r ∈ rows df →
       (r !!! "Overdue" = Bool true
        ↔ ∃ d, r !!! "Planned End" = Ts d
               ∧ timestamp_ltb d today = true
               ∧ r !!! "Project Current Status" ≠ Str "Live"
               ∧ r !!! "Project Current Status" ≠ Str "Withdraw")
       ∧ (r !!! "Project Current Status" = NaN → r !!! "Overdue" = Bool false)).
Proof.
  intros H.
  destruct (H sample_today sample_file sample_frame sample_row) as [_ Hnull].
  - compute_done.
  - compute_done.
  - assert (Hst : sample_row !!! "Project Current Status" = NaN)
      by compute_done.
    apply Hnull in Hst. vm_compute in Hst. discriminate.
Qed.

(** The example of the specification: target 01-Jan-2020, no revision,
    status [In Progress], loaded on a later day. *)
Example overdue_in_progress :
  let file := {| header := REQUIRED_COLS;
                 records := [["1"; "P"; "V"; "High"; "O"; "01-Jan-2019"; "01-Jan-2020";
                              ""; "x"; "In Progress"; "C"; "M"; "K"]] |} in
  (λ r, (r !!! "Planned End", r !!! "Overdue"))
    <$> rows (frame_of (load_data {| year := 2020; month := 1; day := 2 |} file))
  = [(Ts {| year := 2020; month := 1; day := 1 |}, Bool true)].
Proof. reflexivity. Qed.
End derived.

(** ** Validation of the header, and one row per data line *)

Section ingestion.
Implicit Types (df : DataFrame) (r : gmap string value) (c : string).

Lemma REQUIRED_COLS_length : length REQUIRED_COLS = 13.
Proof. reflexivity. Qed.

Lemma REQUIRED_COLS_split c : c ∈ REQUIRED_COLS ↔ c ∈ TEXT_COLS ∨ c ∈ DATE_COLS.
Proof.
  unfold REQUIRED_COLS, TEXT_COLS, DATE_COLS.
  rewrite !elem_of_cons, !elem_of_nil. tauto.
Qed.

(** C4. A file whose header lacks some of the thirteen required columns is
    refused with a [ValueError] that lists exactly the required columns the
    header lacks, and no frame is returned; a file whose header has them all
    is loaded. *)
Theorem missing_columns_are_reported today file raw :
  read_csv file = inr raw →
  ((∃ c, c ∈ REQUIRED_COLS ∧ c ∉ header file)
   → ∃ missing, load_data today file = inl (ValueError missing)
                ∧ ∀ c, c ∈ missing ↔ c ∈ REQUIRED_COLS ∧ c ∉ header file)
  ∧ ((∀ c, c ∈ REQUIRED_COLS → c ∈ header file)
     → ∃ df, load_data today file = inr df).
Proof.
  intros Hread. split.
  - intros (c & Hc & Hn). eexists. split.
    + apply (load_data_missing _ _ _ Hread). rewrite Forall_forall. intros H. by apply Hn, H.
    + intros c'. apply elem_of_filter_absent.
  - intros Hall. eexists. apply (load_data_ok _ _ _ Hread). by apply Forall_forall.
Qed.

Lemma missing_columns_are_reported_witness :
  (∃ missing, load_data sample_today sample_short_file = inl (ValueError missing)
              ∧ ∀ c, c ∈ missing ↔ c ∈ REQUIRED_COLS ∧ c ∉ header sample_short_file)
  ∧ (∃ df, load_data sample_today sample_file = inr df).
Proof.
  split.
  - apply (missing_columns_are_reported sample_today sample_short_file
             (frame_of (read_csv sample_short_file))).
    + compute_done.
    + exists "Name". split; compute_done.
  - apply (missing_columns_are_reported sample_today sample_file sample_raw).
    + compute_done.
    + apply Forall_forall. compute_done.
Defined.

Lemma load_data_rows today file raw :
  read_csv file = inr raw →
  Forall (λ c, c ∈ header file) REQUIRED_COLS →
  ∃ df, load_data today file = inr df
        ∧ length (rows df) = length (records file)
        ∧ ∀ i rec, records file !! i = Some rec →
            ∃ r, rows df !! i = Some r
                 ∧ (∀ c, c ∈ TEXT_COLS
                      → r !!! c = parse_cell (raw_field (header file) rec c))
                 ∧ (∀ c, c ∈ DATE_COLS
                      → r !!! c
                        = to_datetime_cell today
                            (parse_cell (raw_field (header file) rec c))).
Proof.
  intros Hread Hreq. eexists. split; [by apply (load_data_ok _ _ _ Hread)|].
  apply read_csv_inv in Hread as (_ & _ & ->). cbn [rows].
  split; [by rewrite !length_fmap|].
  intros i rec Hi. eexists. split.
  - rewrite !list_lookup_fmap, Hi. reflexivity.
  - split; intros c Hc.
    + destruct (text_col_plain _ Hc) as (? & ? & ?).
      by rewrite load_row_text, row_of_record_lookup.
    + by rewrite load_row_date, row_of_record_lookup.
Qed.

(** C9. For a file with all the required columns, the frame [load_data]
    returns has as many rows as the file has data lines, and its i-th row is
    the i-th data line: the text columns hold the fields as read, the date
    columns the parsed fields. Nothing is dropped, moved or merged. *)
Theorem one_row_per_record today file raw :
  read_csv file = inr raw →
  Forall (λ c, c ∈ header file) REQUIRED_COLS →
  ∃ df, load_data today file = inr df
        ∧ length (rows df) = length (records file)
        ∧ ∀ i rec, records file !! i = Some rec →
            ∃ r, rows df !! i = Some r
                 ∧ (∀ c, c ∈ TEXT_COLS
                      → r !!! c = parse_cell (raw_field (header file) rec c))
                 ∧ (∀ c, c ∈ DATE_COLS
                      → r !!! c
                        = to_datetime_cell today
                            (parse_cell (raw_field (header file) rec c))).
Proof. apply load_data_rows. Qed.

Lemma one_row_per_record_witness :
  ∃ df, load_data sample_today sample_file = inr df
        ∧ length (rows df) = length (records sample_file)
        ∧ ∀ i rec, records sample_file !! i = Some rec →
            ∃ r, rows df !! i = Some r
                 ∧ (∀ c, c ∈ TEXT_COLS
                      → r !!! c = parse_cell (raw_field (header sample_file) rec c))
                 ∧ (∀ c, c ∈ DATE_COLS
                      → r !!! c
                        = to_datetime_cell sample_today
                            (parse_cell (raw_field (header sample_file) rec c))).
Proof.
  apply (one_row_per_record sample_today sample_file sample_raw).
  - compute_done.
  - compute_done.
Defined.
End ingestion.

(** ** The date format *)

Section dates.

Lemma code_inv a n : code a = n → a = ascii_of_nat n.
Proof. intros <-. unfold code. by rewrite ascii_nat_embedding. Qed.

Lemma two_char_day_sound a b :
  two_char_day a b = true → day_field (String a (String b "")).
Proof.
  unfold two_char_day, day_field.
  rewrite !orb_true_iff, !andb_true_iff, !Nat.eqb_eq, !Nat.leb_le.
  intros [[[[[Ha Hb1] Hb2]|[[Ha1 Ha2] Hb]]|[Ha Hb]]|[Ha Hb]].
  - left. split; [by apply code_inv in Ha|].
    assert (code b = 48 ∨ code b = 49) as [H|H] by lia; apply code_inv in H; auto.
  - right. left. split; [|done].
    assert (code a = 49 ∨ code a = 50) as [H|H] by lia; apply code_inv in H; auto.
  - right. right. split; [|done]. left. by apply code_inv in Ha.
  - right. right. split; [|done]. right. by apply code_inv in Ha.
Qed.

Lemma directive_d_sound s d rest :
  directive_d s = Some (d, rest) → ∃ dd, s = dd +:+ rest ∧ day_field dd.
Proof.
  destruct s as [|a [|b s]]; unfold directive_d; [discriminate| |].
  - destruct (is_nonzero_digit a) eqn:Ha; intros [= <- <-].
    by exists (String a "").
  - destruct (two_char_day a b) eqn:Hab.
    + intros [= <- <-]. exists (String a (String b "")).
      split; [done|]. by apply two_char_day_sound.
    + destruct (is_nonzero_digit a) eqn:Ha; intros [= <- <-].
      by exists (String a "").
Qed.

Lemma directive_b_sound s m rest :
  directive_b s = Some (m, rest) → ∃ b, s = b +:+ rest ∧ month_field b.
Proof.
  destruct s as [|a [|b [|c s]]]; unfold directive_b; try discriminate.
  destruct (list_find _ _) as [[i x]|] eqn:Hfind; intros [= <- <-].
  exists (String a (String b (String c ""))). split; [done|]. split; [done|].
  apply list_find_Some in Hfind as (Hi & -> & _).
  by apply list_elem_of_lookup_2 in Hi.
Qed.

Lemma directive_Y_sound s y rest :
  directive_Y s = Some (y, rest) → ∃ yy, s = yy +:+ rest ∧ year_field yy.
Proof.
  destruct s as [|a [|b [|c [|d s]]]]; unfold directive_Y; try discriminate.
  destruct (_ && _) eqn:H; intros [= <- <-].
  exists (String a (String b (String c (String d "")))). split; [done|].
  apply andb_true_iff in H as [H ?]. apply andb_true_iff in H as [H ?].
  apply andb_true_iff in H as [? ?]. done.
Qed.

Lemma literal_sound c s rest : literal c s = Some rest → s = String c rest.
Proof.
  destruct s as [|a s]; unfold literal; [discriminate|].
  case_decide; [|discriminate]. by intros [= <-]; subst.
Qed.

Lemma string_app_cons x (a b : string) : String x a +:+ b = String x (a +:+ b).
Proof. reflexivity. Qed.

Lemma string_app_nil_r (a : string) : a +:+ "" = a.
Proof. induction a as [|x a IH]; [done|]. by rewrite string_app_cons, IH. Qed.

(** What [strptime] accepts is a text of the format. *)
Lemma strptime_sound s t : strptime s = Some t → matches_format s.
Proof.
  unfold strptime.
  destruct (directive_d s) as [[d s1]|] eqn:Hd; [simpl|discriminate].
  destruct (literal "-" s1) as [s2|] eqn:H1; [simpl|discriminate].
  destruct (directive_b s2) as [[m s3]|] eqn:Hb; [simpl|discriminate].
  destruct (literal "-" s3) as [s4|] eqn:H2; [simpl|discriminate].
  destruct (directive_Y s4) as [[y s5]|] eqn:HY; [simpl|discriminate].
  case_decide as Hend; [|discriminate]. intros _. subst s5.
  apply directive_d_sound in Hd as (dd & -> & Hdd).
  apply literal_sound in H1 as ->.
  apply directive_b_sound in Hb as (b & -> & Hbb).
  apply literal_sound in H2 as ->.
  apply directive_Y_sound in HY as (yy & -> & Hyy).
  exists dd, b, yy. split; [|done].
  rewrite string_app_nil_r. reflexivity.
Qed.

Lemma bind_Some {A B} (x : A) (f : A → option B) : Some x ≫= f = f x.
Proof. reflexivity. Qed.

Lemma two_char_day_dash a : two_char_day a "-" = false.
Proof.
  unfold two_char_day.
  destruct (code a =? 51), (49 <=? code a), (code a <=? 50), (code a =? 48),
    (code a =? 32); reflexivity.
Qed.

Lemma two_char_day_complete a b :
  day_field (String a (String b "")) → two_char_day a b = true.
Proof.
  unfold day_field, two_char_day.
  intros [[-> [-> | ->]]|[[[-> | ->] Hb]|[[-> | ->] Hb]]]; try reflexivity;
    rewrite Hb; reflexivity.
Qed.

Lemma directive_d_complete dd rest :
  day_field dd → ∃ d, directive_d (dd +:+ String "-" rest) = Some (d, String "-" rest).
Proof.
  destruct dd as [|a [|b [|x dd]]]; [done| | |done]; intros Hdd.
  - rewrite string_app_cons.
    change ("" +:+ String "-" rest) with (String "-" rest). unfold directive_d.
    rewrite two_char_day_dash. simpl in Hdd. rewrite Hdd. eauto.
  - rewrite !string_app_cons.
    change ("" +:+ String "-" rest) with (String "-" rest). unfold directive_d.
    rewrite (two_char_day_complete _ _ Hdd). eauto.
Qed.

Lemma directive_b_complete b rest :
  month_field b → ∃ m, directive_b (b +:+ rest) = Some (m, rest).
Proof.
  intros [Hlen Hb]. destruct b as [|x [|y [|z [|w b]]]]; try discriminate.
  rewrite !string_app_cons. change ("" +:+ rest) with rest. unfold directive_b.
  destruct (list_find_elem_of
              (λ m, m = lower_string (String x (String y (String z ""))))
              MONTH_ABBR _ Hb eq_refl) as [[i m] ->].
  eauto.
Qed.

Lemma directive_Y_complete yy rest :
  year_field yy → ∃ y, directive_Y (yy +:+ rest) = Some (y, rest).
Proof.
  destruct yy as [|a [|b [|c [|d [|x yy]]]]]; try done.
  intros (Ha & Hb & Hc & Hd). rewrite !string_app_cons.
  change ("" +:+ rest) with rest. unfold directive_Y.
  rewrite Ha, Hb, Hc, Hd. eauto.
Qed.

(** A text of the format is read field by field; it becomes a timestamp
    when the three numbers are a date of the calendar. *)
Lemma strptime_complete s :
  matches_format s → ∃ y m d, strptime s = make_date y m d.
Proof.
  intros (dd & b & yy & -> & Hd & Hb & Hy). unfold strptime.
  change (dd +:+ "-" +:+ b +:+ "-" +:+ yy)
    with (dd +:+ String "-" (b +:+ String "-" yy)).
  destruct (directive_d_complete dd (b +:+ String "-" yy) Hd) as [d ->].
  rewrite bind_Some. cbv beta iota. cbn [literal].
  rewrite decide_True, bind_Some by done.
  destruct (directive_b_complete b (String "-" yy) Hb) as [m ->].
  rewrite bind_Some. cbv beta iota. cbn [literal].
  rewrite decide_True, bind_Some by done.
  rewrite <- (string_app_nil_r yy).
  destruct (directive_Y_complete yy "" Hy) as [y ->].
  rewrite bind_Some. cbv beta iota. rewrite decide_True by done. eauto.
Qed.

(** A text of the format starts with a day. *)
Lemma no_day_no_date s : directive_d s = None → ¬ matches_format s.
Proof.
  intros Hnone (dd & b & yy & -> & Hd & _ & _).
  change (dd +:+ "-" +:+ b +:+ "-" +:+ yy)
    with (dd +:+ String "-" (b +:+ String "-" yy)) in Hnone.
  destruct (directive_d_complete dd (b +:+ String "-" yy) Hd) as [d Hsome].
  congruence.
Qed.

Lemma clock_word_no_date s : s ∈ CLOCK_WORDS → ¬ matches_format s.
Proof.
  unfold CLOCK_WORDS. rewrite !elem_of_cons, elem_of_nil.
  intros [-> | [-> | []]]; by apply no_day_no_date.
Qed.

Lemma to_datetime_cell_clock today s :
  s ∈ CLOCK_WORDS → to_datetime_cell today (parse_cell s) = Ts today.
Proof.
  unfold CLOCK_WORDS. rewrite !elem_of_cons, elem_of_nil.
  intros [-> | [-> | []]]; reflexivity.
Qed.

Lemma to_datetime_cell_bad today s :
  s ∉ CLOCK_WORDS → s = "" ∨ ¬ matches_format s →
  to_datetime_cell today (parse_cell s) = NaT.
Proof.
  intros Hw H. unfold parse_cell. case_decide; [done|]. cbn [to_datetime_cell].
  rewrite decide_False by done.
  destruct (strptime s) as [t|] eqn:Hs; [|done].
  destruct H as [->|H]; [discriminate|]. destruct H. by eapply strptime_sound.
Qed.

Example strptime_05_Jan_2024 :
  strptime "05-Jan-2024" = Some {| year := 2024; month := 1; day := 5 |}
  ∧ matches_format "05-Jan-2024".
Proof.
  split; [reflexivity|]. exists "05", "Jan", "2024". split; [reflexivity|].
  split_and!; compute_done.
Qed.

Example strptime_rejects :
  strptime "2024-01-05" = None ∧ strptime "31-Feb-2024" = None
  ∧ strptime "05-January-2024" = None ∧ strptime "05-Jan-24" = None.
Proof. split_and!; reflexivity. Qed.

(** C8, as amended. For a file with all the required columns, [load_data]
    returns a frame, whatever the date fields of the data lines hold. A
    date field that reads [today] or [now] is the day of the call; any
    other date field of ASCII text that is empty or is no text of the
    format [%d-%b-%Y] is [NaT]. No date field is an error. *)
Theorem unparseable_date_is_null_unless_clock today file raw :
  read_csv file = inr raw →
  Forall (λ c, c ∈ header file) REQUIRED_COLS →
  ∃ df, load_data today file = inr df
        ∧ ∀ i rec c, records file !! i = Some rec → c ∈ DATE_COLS →
            ∃ r, rows df !! i = Some r
                 ∧ (raw_field (header file) rec c ∈ CLOCK_WORDS → r !!! c = Ts today)
                 ∧ (ascii_text (raw_field (header file) rec c) = true →
                    raw_field (header file) rec c ∉ CLOCK_WORDS →
                    raw_field (header file) rec c = ""
                    ∨ ¬ matches_format (raw_field (header file) rec c) →
                    r !!! c = NaT).
Proof.
  intros Hread Hreq.
  destruct (load_data_rows today file raw Hread Hreq) as (df & Hload & _ & Hrows).
  exists df. split; [done|]. intros i rec c Hi Hc.
  destruct (Hrows i rec Hi) as (r & Hr & _ & Hdate).
  exists r. split; [done|]. rewrite (Hdate c Hc). split.
  - apply to_datetime_cell_clock.
  - intros _. apply to_datetime_cell_bad.
Qed.

Lemma unparseable_date_is_null_unless_clock_witness :
  ∃ df, load_data sample_today sample_clock_file = inr df
        ∧ ∃ r, rows df !! 0 = Some r
               ∧ r !!! "Project Initiation Date" = Ts sample_today
               ∧ r !!! "Revised Timeline" = NaT.
Proof.
  destruct (unparseable_date_is_null_unless_clock sample_today sample_clock_file
              (frame_of (read_csv sample_clock_file)))
    as (df & Hload & H).
  - compute_done.
  - compute_done.
  - exists df. split; [exact Hload|].
    destruct (H 0 _ "Project Initiation Date" eq_refl ltac:(compute_done))
      as (r & Hr & Hclock & _).
    destruct (H 0 _ "Revised Timeline" eq_refl ltac:(compute_done))
      as (r' & Hr' & _ & Hbad).
    rewrite Hr in Hr'. injection Hr' as <-.
    exists r. split; [exact Hr|]. split.
    + apply Hclock. compute_done.
    + apply Hbad; [reflexivity | compute_done |].
      right. by apply no_day_no_date.
Defined.

(** C8, as stated, fails: the start date of the sample project reads
    [today], which is no text of the format, and it is loaded as the day of
    the call, not as a missing value. *)
Lemma clock_word_counterexample :
  ¬ (∀ today file raw,
       read_csv file = inr raw →
       Forall (λ c, c ∈ header file) REQUIRED_COLS →
       ∃ df, load_data today file = inr df
             ∧ ∀ i rec c, records file !! i = Some rec → c ∈ DATE_COLS →
                 raw_field (header file) rec c = ""
                 ∨ ¬ matches_format (raw_field (header file) rec c) →
                 ∃ r, rows df !! i = Some r ∧ r !!! c = NaT).
Proof.
  intros H.
  destruct (H sample_today sample_clock_file (frame_of (read_csv sample_clock_file)))
    as (df & Hload & Hcell); [compute_done|compute_done|].
  destruct (Hcell 0 _ "Project Initiation Date" eq_refl) as (r & Hr & Hc).
  - compute_done.
  - right. apply clock_word_no_date. compute_done.
  - assert (Hdf : df = frame_of (load_data sample_today sample_clock_file))
      by (by rewrite Hload).
    subst df.
    assert (Hrow : r = default ∅ (rows (frame_of (load_data sample_today sample_clock_file))
                                    !! 0))
      by (by rewrite Hr).
    subst r. clear -Hc. vm_compute in Hc. discriminate Hc.
Qed.
End dates.

(** ** The sidebar filters *)

Section filters.
Implicit Types (df : DataFrame) (r : gmap string value) (c : string).

Lemma filter_all {A} (P : A → Prop) `{!∀ x, Decision (P x)} (l : list A) :
  (∀ x, P x) → filter P l = l.
Proof.
  intros HP. induction l as [|x l IH]; [done|].
  by rewrite filter_cons_True, IH.
Qed.

Lemma passes_isin sel v : sel ≠ [] → passes sel v ↔ isin_cell sel v = true.
Proof.
  intros Hsel. unfold passes, isin_cell. destruct v as [| |x|t|b];
    try (split; [by intros [?|?] | discriminate]).
  rewrite bool_decide_eq_true. split; [by intros [?|?] | auto].
Qed.

Lemma passes_text sel v :
  sel ≠ [] → passes sel v → ∃ x, v = Str x ∧ x ∈ sel.
Proof. intros Hsel [?|H]; [done|]. destruct v; try done. eauto. Qed.

Lemma filter_isin_ok c sel cols l :
  c ∈ cols →
  filter_isin c sel {| columns := cols; rows := l |}
  = inr {| columns := cols; rows := filter (λ r, passes sel (r !!! c)) l |}.
Proof.
  intros Hc. unfold filter_isin. case_decide as Hsel.
  - rewrite filter_all; [done|]. intros r. by left.
  - rewrite col_ok, bind_inr by done. unfold isin, select_rows, mret, result_ret.
    cbn [rows columns]. rewrite <- list_fmap_compose, mask_rows_rowwise.
    do 2 f_equal. apply list_filter_iff. intros r. simpl.
    symmetry. by apply passes_isin.
Qed.

Lemma filtered_ok sel cols l :
  Forall (λ c, c ∈ cols) FILTER_COLS →
  filtered sel {| columns := cols; rows := l |}
  = inr {| columns := cols; rows := filter (keep_row sel) l |}.
Proof.
  intros Hcols.
  assert (Hin : ∀ c, c ∈ FILTER_COLS → c ∈ cols) by (by apply Forall_forall).
  unfold filtered.
  repeat (rewrite filter_isin_ok, bind_inr by (apply Hin; compute_done)).
  rewrite filter_isin_ok by (apply Hin; compute_done).
  rewrite !list_filter_filter. do 2 f_equal. apply list_filter_iff.
  intros r. unfold keep_row, chosen. rewrite !Forall_cons, Forall_nil. simpl. tauto.
Qed.

(** C3. [filtered] keeps a row exactly when, for every filter with a
    selection, the cell of the row is one of the selected texts; a filter
    with nothing selected keeps every row, a row with a missing value in a
    filtered column is dropped, and the rows kept stay in their order. *)
Theorem filtered_keeps_selected_rows sel df :
  Forall (λ c, c ∈ columns df) FILTER_COLS →
  ∃ f, filtered sel df = inr f
       ∧ columns f = columns df
       ∧ rows f = filter (keep_row sel) (rows df)
       ∧ sublist (rows f) (rows df)
       ∧ (∀ r, r ∈ rows f
            ↔ r ∈ rows df
              ∧ ∀ c s, (c, s) ∈ chosen sel → s ≠ [] → ∃ x, r !!! c = Str x ∧ x ∈ s).
Proof.
  intros Hcols. destruct df as [cols l]. cbn [columns rows] in *.
  eexists. split; [by apply filtered_ok|]. cbn [columns rows].
  split; [done|]. split; [done|]. split; [apply sublist_filter|].
  intros r. rewrite list_elem_of_filter. unfold keep_row. rewrite Forall_forall.
  split.
  - intros [H1 H2]. split; [done|].
    intros c s Hcs Hs. by apply (passes_text s), (H1 (c, s)).
  - intros [H1 H2]. split; [|done].
    intros [c s] Hcs. simpl. destruct (decide (s = [])) as [->|Hs]; [by left|].
    destruct (H2 c s Hcs Hs) as (x & -> & Hx). by right.
Qed.

Lemma filtered_keeps_selected_rows_witness :
  ∃ f, filtered sample_selections sample_frame = inr f
       ∧ columns f = columns sample_frame
       ∧ rows f = filter (keep_row sample_selections) (rows sample_frame)
       ∧ sublist (rows f) (rows sample_frame)
       ∧ (∀ r, r ∈ rows f
            ↔ r ∈ rows sample_frame
              ∧ ∀ c s, (c, s) ∈ chosen sample_selections → s ≠ []
                       → ∃ x, r !!! c = Str x ∧ x ∈ s).
Proof.
  apply (filtered_keeps_selected_rows sample_selections sample_frame).
  compute_done.
Defined.
End filters.

(** ** Sorting by insertion *)

Section sorting.
Context {A : Type} (leb : A → A → bool).

Lemma insert_by_perm x l : insert_by leb x l ≡ₚ x :: l.
Proof.
  induction l as [|y l IH]; [done|]. cbn [insert_by].
  destruct (leb x y); [done|]. by rewrite IH, Permutation_swap.
Qed.

Lemma sort_by_perm l : sort_by leb l ≡ₚ l.
Proof.
  induction l as [|x l IH]; [done|]. unfold sort_by in *. cbn [foldr].
  by rewrite insert_by_perm, IH.
Qed.

Lemma elem_of_sort_by x l : x ∈ sort_by leb l ↔ x ∈ l.
Proof. by rewrite sort_by_perm. Qed.

Lemma length_sort_by l : length (sort_by leb l) = length l.
Proof. by rewrite sort_by_perm. Qed.

(** [B x y] is what is known of [x] when it stands before [y] in the list to
    sort, [R] the order to establish. *)
Context (B R : A → A → Prop).
Hypothesis before : ∀ x y, B x y → leb x y = true → R x y.
Hypothesis after : ∀ x y, B x y → leb x y = false → R y x.
Hypothesis through : ∀ x y z, B x z → leb x y = true → R y z → R x z.

Lemma insert_by_sorted x l :
  Forall (B x) l → StronglySorted R l → StronglySorted R (insert_by leb x l).
Proof.
  intros HB Hs. induction Hs as [|y l Hs IH Hy]; cbn [insert_by].
  { repeat constructor. }
  apply Forall_cons in HB as [Hxy HB]. destruct (leb x y) eqn:Hleb.
  - constructor; [by constructor|]. constructor; [by apply before|].
    rewrite Forall_forall in HB, Hy |- *. intros z Hz.
    apply (through x y z); auto.
  - constructor; [by apply IH|].
    rewrite Forall_forall in Hy |- *. intros z Hz.
    rewrite insert_by_perm in Hz.
    apply elem_of_cons in Hz as [->|Hz]; [by apply after|auto].
Qed.

Lemma sort_by_sorted l : StronglySorted B l → StronglySorted R (sort_by leb l).
Proof.
  induction 1 as [|x l Hs IH Hx]; [constructor|].
  unfold sort_by in *. cbn [foldr]. apply insert_by_sorted; [|done].
  rewrite Forall_forall in Hx |- *. intros y Hy. by apply Hx, elem_of_sort_by.
Qed.
End sorting.

Lemma StronglySorted_True {A} (l : list A) : StronglySorted (λ _ _, True) l.
Proof. induction l; constructor; [done|]. by apply Forall_forall. Qed.

(** ** The order of timestamps *)

Section order.

Lemma timestamp_ltb_lt a b :
  timestamp_ltb a b = true
  ↔ year a < year b
    ∨ (year a = year b
       ∧ (month a < month b ∨ (month a = month b ∧ day a < day b))).
Proof.
  unfold timestamp_ltb.
  rewrite !orb_true_iff, !andb_true_iff, !orb_true_iff, !andb_true_iff,
    !Nat.ltb_lt, !Nat.eqb_eq.
  tauto.
Qed.

Lemma timestamp_leb_le a b :
  timestamp_leb a b = true
  ↔ year a < year b
    ∨ (year a = year b
       ∧ (month a < month b ∨ (month a = month b ∧ day a ≤ day b))).
Proof.
  unfold timestamp_leb. rewrite negb_true_iff, <- not_true_iff_false, timestamp_ltb_lt.
  lia.
Qed.

Lemma timestamp_ltb_irrefl a : timestamp_ltb a a = false.
Proof. apply not_true_iff_false. rewrite timestamp_ltb_lt. lia. Qed.

Lemma timestamp_ltb_trans a b c :
  timestamp_ltb a b = true → timestamp_ltb b c = true → timestamp_ltb a c = true.
Proof. rewrite !timestamp_ltb_lt. lia. Qed.

Lemma timestamp_leb_total a b : timestamp_leb a b = false → timestamp_leb b a = true.
Proof.
  rewrite <- not_true_iff_false. rewrite !timestamp_leb_le. lia.
Qed.

Lemma timestamp_leb_trans a b c :
  timestamp_leb a b = true → timestamp_leb b c = true → timestamp_leb a c = true.
Proof. rewrite !timestamp_leb_le. lia. Qed.

Lemma value_leb_total a b : value_leb a b = false → value_leb b a = true.
Proof.
  destruct a, b; simpl; try done. apply timestamp_leb_total.
Qed.

Lemma value_leb_trans a b c :
  value_leb a b = true → value_leb b c = true → value_leb a c = true.
Proof.
  destruct a, b, c; simpl; try done. apply timestamp_leb_trans.
Qed.
End order.

(** ** The timeline *)

Section timeline.
Implicit Types (df : DataFrame) (r : gmap string value) (c : string).

Lemma dropna_ok subset cols l :
  Forall (λ c, c ∈ cols) subset →
  dropna subset {| columns := cols; rows := l |}
  = inr {| columns := cols; rows := filter (complete subset) l |}.
Proof.
  intros Hsub. unfold dropna. cbn [columns rows].
  destruct (list_find _ _) as [[i c]|] eqn:Hfind; [|done].
  apply list_find_Some in Hfind as (Hi & Hc & _).
  apply list_elem_of_lookup_2 in Hi. rewrite Forall_forall in Hsub.
  destruct Hc. by apply Hsub.
Qed.

Lemma timeline_rows_ok n cols l :
  "Project Initiation Date" ∈ cols → "Planned End" ∈ cols →
  timeline_rows n {| columns := cols; rows := l |}
  = inr {| columns := cols;
           rows := sort_by (row_leb "Project Initiation Date")
                     (take n (filter (complete ["Project Initiation Date"; "Planned End"]) l)) |}.
Proof.
  intros Hi Hp. unfold timeline_rows, timeline_df.
  rewrite dropna_ok, bind_inr by (by repeat constructor).
  unfold df_head, mret, result_ret. cbn [rows columns]. rewrite bind_inr. cbn [rows columns].
  case_decide as Hlen.
  - unfold sort_values. cbn [rows columns]. by rewrite decide_True.
  - destruct (take n _); [done|]. simpl in Hlen. lia.
Qed.

(** C5, as amended. The timeline is given the first [limit] rows, in table
    order, of the rows that have both a start date and a planned end, and
    these rows sorted by start date: it has at most [limit] rows, none
    lacks a date, and it is in ascending order of start date. *)
Theorem timeline_is_cut_then_sorted limit df :
  "Project Initiation Date" ∈ columns df → "Planned End" ∈ columns df →
  ∃ t, timeline_rows limit df = inr t
       ∧ rows t ≡ₚ take limit
                     (filter (complete ["Project Initiation Date"; "Planned End"]) (rows df))
       ∧ StronglySorted (λ r1 r2, row_leb "Project Initiation Date" r1 r2 = true) (rows t)
       ∧ length (rows t) ≤ limit
       ∧ Forall (λ r, isna (r !!! "Project Initiation Date") = false
                      ∧ isna (r !!! "Planned End") = false) (rows t).
Proof.
  destruct df as [cols l]. cbn [columns rows]. intros Hi Hp.
  eexists. split; [by apply timeline_rows_ok|]. cbn [rows].
  split; [apply sort_by_perm|]. split; [|split].
  - apply (sort_by_sorted _ (λ _ _, True)); [done| | |apply StronglySorted_True].
    + intros x y _. apply value_leb_total.
    + intros x y z _. apply value_leb_trans.
  - rewrite length_sort_by, length_take. lia.
  - rewrite Forall_forall. intros r Hr. rewrite elem_of_sort_by in Hr.
    apply subseteq_take, list_elem_of_filter in Hr as [Hr _].
    unfold complete in Hr. rewrite !Forall_cons in Hr. tauto.
Qed.

Lemma timeline_is_cut_then_sorted_witness :
  ∃ t, timeline_rows 2 sample_frame = inr t
       ∧ rows t ≡ₚ take 2
                     (filter (complete ["Project Initiation Date"; "Planned End"])
                        (rows sample_frame))
       ∧ StronglySorted (λ r1 r2, row_leb "Project Initiation Date" r1 r2 = true) (rows t)
       ∧ length (rows t) ≤ 2
       ∧ Forall (λ r, isna (r !!! "Project Initiation Date") = false
                      ∧ isna (r !!! "Planned End") = false) (rows t).
Proof.
  apply (timeline_is_cut_then_sorted 2 sample_frame); compute_done.
Defined.

(** C5, as stated, fails: with a limit of two the timeline of the three
    sample projects shows the first two of the table (2 and 1), where
    sorting before cutting gives the two that start first (2 and 3). *)
Lemma timeline_sorted_then_cut_counterexample :
  ¬ (∀ limit df t,
       limit ≤ 50 `min` length (rows df) →
       timeline_rows limit df = inr t → rows t = timelineSlice limit df).
Proof.
  intros H.
  specialize (H 2 sample_frame (frame_of (timeline_rows 2 sample_frame))).
  apply (f_equal (fmap (λ r : gmap string value, r !!! "ID"))) in H.
  - vm_compute in H. discriminate.
  - vm_compute. lia.
  - compute_done.
Qed.
End timeline.

(** ** Counting values *)

Section counting.
Implicit Types (s : list value) (k v : value) (table : list (value * nat)).

Lemma count_val_snoc v s k :
  count_val v (s ++ [k]) = if decide (k = v) then S (count_val v s) else count_val v s.
Proof.
  unfold count_val. rewrite filter_app, length_app.
  rewrite filter_cons, filter_nil. case_decide; simpl; lia.
Qed.

Lemma count_val_absent v s : v ∉ s → count_val v s = 0.
Proof.
  intros Hv. unfold count_val. induction s as [|x s IH]; [done|].
  apply not_elem_of_cons in Hv as [Hne Hv].
  rewrite filter_cons_False by done. by apply IH.
Qed.

Lemma bump_counts (cnt : value → nat) (K : list value) k :
  NoDup K → (k ∉ K → cnt k = 0) →
  bump k ((λ x, (x, cnt x)) <$> K)
  = (λ x, (x, if decide (k = x) then S (cnt x) else cnt x))
      <$> (if decide (k ∈ K) then K else K ++ [k]).
Proof.
  intros Hnd Hk. induction Hnd as [|x K Hx Hnd IH]; cbn [fmap list_fmap bump].
  { rewrite decide_False by apply not_elem_of_nil. cbn.
    rewrite decide_True by done. rewrite Hk; [done|apply not_elem_of_nil]. }
  destruct (decide (k = x)) as [->|Hne].
  - rewrite decide_True by left. cbn [fmap list_fmap]. rewrite decide_True by done.
    f_equal. apply list_fmap_ext. intros i y Hy. apply list_elem_of_lookup_2 in Hy.
    rewrite decide_False; [done|]. by intros <-.
  - rewrite IH by (intros Hn; apply Hk; rewrite not_elem_of_cons; done).
    destruct (decide (k ∈ K)) as [Hin|Hin].
    + rewrite decide_True by (by right). cbn [fmap list_fmap].
      by rewrite (decide_False (P := k = x)).
    + rewrite decide_False by (rewrite not_elem_of_cons; done). cbn [fmap list_fmap app].
      by rewrite (decide_False (P := k = x)).
Qed.

Lemma first_before_snoc s k a b : first_before s a b → first_before (s ++ [k]) a b.
Proof.
  intros (s1 & s2 & -> & Ha & Hb). exists s1, (s2 ++ [k]).
  by rewrite <- app_assoc.
Qed.

Lemma StronglySorted_weaken {A} (R R' : A → A → Prop) (l : list A) :
  (∀ x y, R x y → R' x y) → StronglySorted R l → StronglySorted R' l.
Proof.
  intros HR. induction 1 as [|x l Hs IH Hx]; constructor; [done|].
  eapply Forall_impl; [exact Hx|]. auto.
Qed.

(** The table of [tally] holds the values in order of first appearance,
    each with the number of its occurrences. *)
Lemma tally_spec s :
  tally s = (λ k, (k, count_val k s)) <$> first_seen s
  ∧ NoDup (first_seen s)
  ∧ (∀ k, k ∈ first_seen s ↔ k ∈ s ∧ isna k = false)
  ∧ StronglySorted (first_before s) (first_seen s).
Proof.
  induction s as [|k s (Ht & Hnd & Hin & Hs)] using rev_ind.
  { split_and!; [done|constructor| |constructor].
    intros k. split; [by intros ?%elem_of_nil | by intros [?%elem_of_nil _]]. }
  unfold tally, first_seen in *. rewrite !foldl_snoc.
  destruct (isna k) eqn:Hk.
  - split_and!; [|done| |].
    + rewrite Ht. apply list_fmap_ext. intros i x Hx. apply list_elem_of_lookup_2, Hin in Hx.
      rewrite count_val_snoc, decide_False; [done|]. intros ->. destruct Hx. congruence.
    + intros x. rewrite Hin, elem_of_app, list_elem_of_singleton.
      split; [tauto|]. intros [[?| ->] ?]; [done|congruence].
    + eapply StronglySorted_weaken; [|exact Hs]. intros x y. apply first_before_snoc.
  - assert (Hfresh : k ∉ foldl (λ seen k, if isna k then seen
                       else if decide (k ∈ seen) then seen else seen ++ [k]) [] s
                     → k ∉ s).
    { intros Hn Hks. apply Hn, Hin. done. }
    split_and!.
    + rewrite Ht, bump_counts; [|done|]; last first.
      { intros Hn. by apply count_val_absent, Hfresh. }
      apply list_fmap_ext. intros i x _. by rewrite count_val_snoc.
    + case_decide; [done|]. apply NoDup_app. split_and!; [done| |apply NoDup_singleton].
      intros x Hx ->%list_elem_of_singleton. done.
    + intros x. case_decide as Hseen.
      * rewrite Hin, elem_of_app, list_elem_of_singleton.
        split; [tauto|]. intros [[?| ->] ?]; [done|]. by apply Hin.
      * rewrite !elem_of_app, list_elem_of_singleton, Hin.
        split; [intros [[? ?]| ->]; auto|]. intros [[?| ->] ?]; auto.
    + case_decide as Hseen.
      * eapply StronglySorted_weaken; [|exact Hs]. intros x y. apply first_before_snoc.
      * apply StronglySorted_app_2.
        -- intros x y Hx ->%list_elem_of_singleton.
           apply Hin in Hx as [Hx _].
           apply list_elem_of_split_l in Hx as (s1 & s2 & -> & Hx1).
           exists s1, (s2 ++ [k]). rewrite <- app_assoc. split; [done|]. split; [done|].
           intros Hy. apply (Hfresh Hseen). apply elem_of_app. by left.
        -- eapply StronglySorted_weaken; [|exact Hs]. intros x y. apply first_before_snoc.
        -- repeat constructor.
Qed.

Lemma keep_ties_descending : descending keep_ties.
Proof.
  intros table. split; [apply sort_by_perm|]. unfold keep_ties.
  apply (sort_by_sorted _ (λ _ _, True)); [| | |apply StronglySorted_True].
  - intros p q _ Hle%Nat.leb_le. done.
  - intros p q _ Hle%Nat.leb_gt. lia.
  - intros p q z _ Hle%Nat.leb_le Hz. lia.
Qed.


(** Whatever the sorting routine, the table holds the distinct values, each
    with its count, in descending order of count. *)
Lemma value_counts_spec sort s :
  descending sort →
  NoDup (value_counts sort s).*1
  ∧ (∀ v n, (v, n) ∈ value_counts sort s ↔ v ∈ s ∧ isna v = false ∧ n = count_val v s)
  ∧ StronglySorted (λ p q, q.2 ≤ p.2) (value_counts sort s).
Proof.
  intros Hsort. destruct (tally_spec s) as (Ht & Hnd & Hin & _).
  destruct (Hsort (tally s)) as [Hperm Hsorted]. unfold value_counts.
  split_and!; [| |done].
  - rewrite Hperm, Ht, <- list_fmap_compose.
    by rewrite (list_fmap_ext _ id _ (λ _ _ _, eq_refl)), list_fmap_id.
  - intros v n. rewrite Hperm, Ht, list_elem_of_fmap. split.
    + intros (k & [= -> ->] & Hk). apply Hin in Hk. tauto.
    + intros (Hv & Hna & ->). exists v. split; [done|]. by apply Hin.
Qed.

(** With the routine that keeps equal counts in place, two values of one
    count stand in the order in which the table meets them first. *)
Lemma keep_ties_order s : StronglySorted (counts_order s) (value_counts keep_ties s).
Proof.
  destruct (tally_spec s) as (Ht & _ & _ & Hs). unfold value_counts, keep_ties.
  apply (sort_by_sorted _ (λ p q, first_before s p.1 q.1)).
  - intros p q Hb Hle%Nat.leb_le. unfold counts_order.
    destruct (decide (q.2 = p.2)); [right|left]; [done|lia].
  - intros p q _ Hle%Nat.leb_gt. left. done.
  - intros p q z Hb Hle%Nat.leb_le [Hlt|[Heq _]]; unfold counts_order.
    + left. lia.
    + destruct (decide (z.2 = p.2)); [right|left]; [done|lia].
  - rewrite Ht. eapply StronglySorted_fmap; [|exact Hs]. done.
Qed.




Example value_counts_Live_Live_OnHold :
  value_counts keep_ties [Str "Live"; Str "Live"; Str "OnHold"]
  = [(Str "Live", 2); (Str "OnHold", 1)]
  ∧ value_counts swap_ties [Str "Live"; Str "Live"; Str "OnHold"]
    = [(Str "Live", 2); (Str "OnHold", 1)].
Proof. split; reflexivity. Qed.

Example value_counts_ties :
  value_counts keep_ties
    [Str "b"; NaN; Str "a"; Str "c"; Str "a"; Str "b"; Str "c"; Str "d"]
  = [(Str "b", 2); (Str "a", 2); (Str "c", 2); (Str "d", 1)]
  ∧ value_counts swap_ties
      [Str "b"; NaN; Str "a"; Str "c"; Str "a"; Str "b"; Str "c"; Str "d"]
    = [(Str "c", 2); (Str "a", 2); (Str "b", 2); (Str "d", 1)].
Proof. split; reflexivity. Qed.
End counting.

(** ** Export and reload *)

Section export.
Implicit Types (df : DataFrame) (r : gmap string value) (c : string).

Lemma is_digit_digit_char n : is_digit (digit_char n) = true.
Proof.
  unfold is_digit, digit_char, code.
  pose proof (Nat.mod_upper_bound n 10).
  rewrite nat_ascii_embedding by lia.
  apply andb_true_iff. rewrite !Nat.leb_le. lia.
Qed.

Lemma literal_dash_digit a rest : is_digit a = true → literal "-" (String a rest) = None.
Proof.
  intros Ha. unfold literal. case_decide as H; [|done]. subst a. discriminate.
Qed.

Lemma strptime_three_digits a b d rest :
  is_digit b = true → is_digit d = true →
  strptime (String a (String b (String d rest))) = None.
Proof.
  intros Hb Hd. unfold strptime, directive_d.
  destruct (two_char_day a b).
  - cbn [mbind option_bind]. by rewrite literal_dash_digit.
  - destruct (is_nonzero_digit a); [|done].
    cbn [mbind option_bind]. by rewrite literal_dash_digit.
Qed.

(** A date as [to_csv] writes it is no text of the format [%d-%b-%Y]. *)
Lemma strptime_isoformat t : strptime (isoformat t) = None.
Proof.
  unfold isoformat, zfill4. rewrite !string_app_cons.
  apply strptime_three_digits; apply is_digit_digit_char.
Qed.

Lemma parse_cell_cases s : parse_cell s = NaN ∨ parse_cell s = Str s.
Proof. unfold parse_cell. case_decide; auto. Qed.

Lemma parse_render_parse s : parse_cell (render (parse_cell s)) = parse_cell s.
Proof.
  unfold parse_cell at 2 3. case_decide as Hs; [reflexivity|].
  cbn [render]. unfold parse_cell. by rewrite decide_False.
Qed.

Lemma isoformat_no_clock_word t : isoformat t ∉ CLOCK_WORDS.
Proof.
  unfold CLOCK_WORDS, isoformat, zfill4.
  rewrite !string_app_cons, !elem_of_cons, elem_of_nil.
  intros [H|[H|[]]]; injection H as H _; apply (f_equal is_digit) in H;
    rewrite is_digit_digit_char in H; discriminate.
Qed.

(** A date that was loaded, written by [to_csv] and loaded again is
    missing. *)
Lemma reparse_date today today' v :
  to_datetime_cell today' (parse_cell (render (to_datetime_cell today v))) = NaT.
Proof.
  destruct (to_datetime_cell_cases today v) as [->|[t ->]]; [reflexivity|].
  cbn [render].
  destruct (parse_cell_cases (isoformat t)) as [->| ->]; [reflexivity|].
  cbn [to_datetime_cell]. rewrite decide_False by apply isoformat_no_clock_word.
  by rewrite strptime_isoformat.
Qed.

Lemma lookup_total_list_to_map (g : string → value) cols c :
  c ∈ cols →
  (list_to_map ((λ c, (c, g c)) <$> cols) : gmap string value) !!! c = g c.
Proof.
  induction cols as [|c' cols IH]; [by intros ?%elem_of_nil|].
  intros Hc. cbn [fmap list_fmap list_to_map foldr]. simpl.
  destruct (decide (c' = c)) as [->|Hne].
  - by rewrite lookup_total_insert_eq.
  - rewrite lookup_total_insert_ne by done. apply IH.
    apply elem_of_cons in Hc as [->|Hc]; done.
Qed.

Lemma raw_field_fmap (g : string → string) hdr hdr' c :
  c ∈ hdr → raw_field hdr (g <$> hdr ++ hdr') c = g c.
Proof.
  induction hdr as [|c' hdr IH]; [by intros ?%elem_of_nil|].
  intros Hc. cbn [raw_field fmap list_fmap app hd tl].
  case_decide as Hcc; [by subst|]. apply IH.
  apply elem_of_cons in Hc as [->|Hc]; done.
Qed.

Lemma select_cols_ok cols' cols l :
  Forall (λ c, c ∈ cols) cols' →
  select_cols cols' {| columns := cols; rows := l |}
  = inr {| columns := cols';
           rows := (λ r, list_to_map ((λ c, (c, r !!! c)) <$> cols')) <$> l |}.
Proof.
  intros Hsub. unfold select_cols. cbn [columns rows].
  destruct (list_find _ _) as [[i c]|] eqn:Hfind; [|done].
  apply list_find_Some in Hfind as (Hi & Hc & _).
  apply list_elem_of_lookup_2 in Hi. rewrite Forall_forall in Hsub.
  destruct Hc. by apply Hsub.
Qed.

Lemma export_filtered_ok cols l :
  Forall (λ c, c ∈ cols) REQUIRED_COLS →
  export_filtered {| columns := cols; rows := l |}
  = inr {| header := REQUIRED_COLS;
           records := (λ r, (λ c, render (r !!! c)) <$> REQUIRED_COLS) <$> l |}.
Proof.
  intros Hreq. unfold export_filtered. rewrite select_cols_ok, bind_inr by done.
  unfold mret, result_ret, to_csv_bytes, to_csv. cbn [columns rows].
  do 2 f_equal. rewrite <- list_fmap_compose. apply list_fmap_ext. intros i r _.
  unfold compose. cbn [columns]. apply list_fmap_ext. intros j c Hc. apply list_elem_of_lookup_2 in Hc.
  by rewrite (lookup_total_list_to_map (λ c, r !!! c)).
Qed.

(** The row that comes back for a row of a loaded frame. *)
Lemma reloaded_row today today' hdr rec :
  let r := load_row today (row_of_record hdr rec) in
  let r' := load_row today'
              (row_of_record REQUIRED_COLS ((λ c, render (r !!! c)) <$> REQUIRED_COLS)) in
  (∀ c, c ∈ TEXT_COLS → isna (r' !!! c) = isna (r !!! c))
  ∧ (∀ c, c ∈ DATE_COLS → r' !!! c = NaT)
  ∧ r' !!! "Planned End" = NaT
  ∧ r' !!! "Overdue" = Bool false.
Proof.
  intros r r'.
  assert (Hfield : ∀ c, c ∈ REQUIRED_COLS →
            row_of_record REQUIRED_COLS ((λ c, render (r !!! c)) <$> REQUIRED_COLS) !!! c
            = parse_cell (render (r !!! c))).
  { intros c Hc. rewrite row_of_record_lookup.
    by rewrite <- (app_nil_r REQUIRED_COLS) at 2; rewrite raw_field_fmap. }
  assert (Hdate : ∀ c, c ∈ DATE_COLS → r' !!! c = NaT).
  { intros c Hc. unfold r'. rewrite load_row_date, Hfield by (done || by apply REQUIRED_COLS_split; right).
    unfold r. rewrite load_row_date by done. apply reparse_date. }
  assert (Hplanned : r' !!! "Planned End" = NaT).
  { unfold r'. rewrite load_row_planned_end. fold r'.
    rewrite !Hdate by compute_done. done. }
  split_and!; [|done|done|].
  - intros c Hc. destruct (text_col_plain _ Hc) as (? & ? & ?).
    unfold r'. rewrite load_row_text, Hfield by (done || by apply REQUIRED_COLS_split; left).
    unfold r. rewrite load_row_text, row_of_record_lookup by done.
    by rewrite parse_render_parse.
  - unfold r'. rewrite (lookup_total_correct _ _ _ (load_row_overdue_Some _ _)).
    fold r'. by rewrite Hplanned.
Qed.
End export.

Section roundtrip.
Implicit Types (df : DataFrame) (r : gmap string value) (c : string).

Lemma REQUIRED_in_loaded (hdr : list string) :
  Forall (λ c, c ∈ hdr) REQUIRED_COLS →
  Forall (λ c, c ∈ add_label "Overdue" (add_label "Planned End" hdr)) REQUIRED_COLS.
Proof.
  intros H. eapply Forall_impl; [exact H|]. intros c Hc.
  rewrite !elem_of_add_label. auto.
Qed.

Lemma FILTER_in_REQUIRED : Forall (λ c, c ∈ REQUIRED_COLS) FILTER_COLS.
Proof. compute_done. Qed.

Lemma download_filtered_inv df csv :
  download_filtered df = inr csv → export_filtered df = inr csv.
Proof.
  unfold download_filtered. destruct (overdue_df df) as [e|o]; [discriminate|].
  rewrite bind_inr. by case_decide.
Qed.

(** C6, as amended. When the filtered frame is downloaded with the thirteen
    required columns and the download is loaded again, the frame that
    comes back has the same number of rows, in the same order; in the ten
    columns that hold no date a cell is missing exactly where it was
    missing; but every date is lost: the download writes a date as
    [YYYY-MM-DD], which [load_data] does not read, so the three date
    columns and [Planned End] are [NaT] and [Overdue] is false in every
    row. *)
Theorem export_reload_keeps_rows_loses_dates today today' file sel df f csv :
  load_data today file = inr df → filtered sel df = inr f →
  download_filtered f = inr csv →
  ∃ df', load_data today' csv = inr df'
         ∧ length (rows df') = length (rows f)
         ∧ ∀ i r, rows f !! i = Some r →
             ∃ r', rows df' !! i = Some r'
                   ∧ (∀ c, c ∈ TEXT_COLS → isna (r' !!! c) = isna (r !!! c))
                   ∧ (∀ c, c ∈ DATE_COLS → r' !!! c = NaT)
                   ∧ r' !!! "Planned End" = NaT
                   ∧ r' !!! "Overdue" = Bool false.
Proof.
  intros (raw & Hread & Hreq & ->)%load_data_inv Hf Hcsv%download_filtered_inv.
  apply read_csv_inv in Hread as (_ & _ & ->). cbn [rows] in Hf.
  pose proof (REQUIRED_in_loaded _ Hreq) as Hcols.
  rewrite filtered_ok in Hf; last first.
  { rewrite Forall_forall in Hcols |- *. intros c Hc. apply Hcols.
    revert c Hc. apply Forall_forall, FILTER_in_REQUIRED. }
  injection Hf as <-. cbn [rows].
  set (l := filter _ _) in *.
  assert (Hl : ∀ r, r ∈ l → ∃ rec, r = load_row today (row_of_record (header file) rec)).
  { intros r [_ Hr]%list_elem_of_filter.
    apply list_elem_of_fmap in Hr as (r0 & -> & Hr).
    apply list_elem_of_fmap in Hr as (rec & -> & _). eauto. }
  clearbody l. rewrite export_filtered_ok in Hcsv by done.
  apply (inj inr) in Hcsv as <-.
  eexists. split.
  { eapply load_data_ok; [apply read_csv_ok|]; cbn [header records].
    - done.
    - apply Forall_forall. intros rec (r & -> & _)%list_elem_of_fmap.
      by rewrite length_fmap.
    - apply Forall_forall. auto. }
  cbn [rows header records]. split; [by rewrite !length_fmap|].
  intros i r Hi. eexists. split.
  { rewrite !list_lookup_fmap, Hi. reflexivity. }
  destruct (Hl r) as (rec & ->); [by eapply list_elem_of_lookup_2|].
  apply reloaded_row.
Qed.

Lemma export_reload_keeps_rows_loses_dates_witness :
  ∃ df', load_data sample_today sample_download = inr df'
         ∧ length (rows df') = length (rows sample_filtered)
         ∧ ∀ i r, rows sample_filtered !! i = Some r →
             ∃ r', rows df' !! i = Some r'
                   ∧ (∀ c, c ∈ TEXT_COLS → isna (r' !!! c) = isna (r !!! c))
                   ∧ (∀ c, c ∈ DATE_COLS → r' !!! c = NaT)
                   ∧ r' !!! "Planned End" = NaT
                   ∧ r' !!! "Overdue" = Bool false.
Proof.
  apply (export_reload_keeps_rows_loses_dates sample_today sample_today sample_file
           sample_selections sample_frame sample_filtered sample_download);
    compute_done.
Defined.

(** C6, as stated, fails: the live project of the sample starts on
    2019-01-05, and after download and reload its start date is missing. *)
Lemma export_reload_counterexample :
  ¬ (∀ today file sel df f csv df',
       load_data today file = inr df → filtered sel df = inr f →
       download_filtered f = inr csv → load_data today csv = inr df' →
       ∀ i r r' c, rows f !! i = Some r → rows df' !! i = Some r' →
                   c ∈ REQUIRED_COLS → r' !!! c = r !!! c).
Proof.
  intros H.
  pose (df' := frame_of (load_data sample_today sample_download)).
  specialize (H sample_today sample_file sample_selections sample_frame sample_filtered
                sample_download df').
  specialize (H ltac:(compute_done) ltac:(compute_done) ltac:(compute_done)
                ltac:(compute_done)).
  specialize (H 0 (default ∅ (rows sample_filtered !! 0)) (default ∅ (rows df' !! 0))
                "Project Initiation Date").
  specialize (H ltac:(compute_done) ltac:(compute_done) ltac:(compute_done)).
  vm_compute in H. discriminate.
Qed.

(** The script defines [to_csv_bytes] where it handles the overdue rows, so
    the last download button has no function to call when no row of the
    filtered frame is overdue. *)
Lemma download_filtered_without_overdue cols l :
  "Overdue" ∈ cols → Forall (λ r, r !!! "Overdue" ≠ Bool true) l →
  download_filtered {| columns := cols; rows := l |} = inl (NameError "to_csv_bytes").
Proof.
  intros Hc Hl. unfold download_filtered, overdue_df.
  rewrite col_ok, !bind_inr by done. unfold mret, result_ret, select_rows.
  cbn [rows columns]. rewrite <- list_fmap_compose, mask_rows_rowwise, bind_inr.
  cbn [rows]. rewrite decide_True; [done|].
  induction Hl as [|r l Hr _ IH]; [done|].
  rewrite filter_cons_False; [done|]. unfold compose. by rewrite bool_decide_eq_true.
Qed.
End roundtrip.

(** * More of the script *)

(** ** The filters, once more *)

Section filters_more.
Implicit Types (df : DataFrame) (r : gmap string value) (c : string).

Lemma filter_isin_spec c sel cols l :
  (sel ≠ [] → c ∈ cols) →
  filter_isin c sel {| columns := cols; rows := l |}
  = inr {| columns := cols; rows := filter (λ r, passes sel (r !!! c)) l |}.
Proof.
  intros Hc. destruct (decide (sel = [])) as [->|Hsel]; [|by apply filter_isin_ok, Hc].
  unfold filter_isin. rewrite decide_True by done.
  rewrite filter_all; [done|]. intros r. by left.
Qed.

Lemma filter_isin_KeyError c sel df :
  sel ≠ [] → c ∉ columns df → filter_isin c sel df = inl (KeyError c).
Proof.
  intros Hsel Hc. unfold filter_isin, col. by rewrite !decide_False.
Qed.

Lemma filter_isin_inv c sel df f :
  filter_isin c sel df = inr f →
  (sel ≠ [] → c ∈ columns df)
  ∧ f = {| columns := columns df; rows := filter (λ r, passes sel (r !!! c)) (rows df) |}.
Proof.
  intros Hf. assert (Hc : sel ≠ [] → c ∈ columns df).
  { intros Hsel. destruct (decide (c ∈ columns df)) as [|Hn]; [done|].
    rewrite filter_isin_KeyError in Hf by done. discriminate. }
  split; [done|]. destruct df as [cols l]. rewrite filter_isin_spec in Hf by done.
  by injection Hf.
Qed.

Lemma filtered_spec sel cols l :
  (∀ c s, (c, s) ∈ chosen sel → s ≠ [] → c ∈ cols) →
  filtered sel {| columns := cols; rows := l |}
  = inr {| columns := cols; rows := filter (keep_row sel) l |}.
Proof.
  intros Hc. unfold filtered.
  repeat (rewrite filter_isin_spec, bind_inr
            by (apply Hc; unfold chosen;
                repeat first [apply list_elem_of_here | apply list_elem_of_further])).
  rewrite filter_isin_spec
    by (apply Hc; unfold chosen;
        repeat first [apply list_elem_of_here | apply list_elem_of_further]).
  rewrite !list_filter_filter. do 2 f_equal. apply list_filter_iff.
  intros r. unfold keep_row, chosen. rewrite !Forall_cons, Forall_nil. simpl. tauto.
Qed.

Lemma filtered_inv sel df f :
  filtered sel df = inr f →
  (∀ c s, (c, s) ∈ chosen sel → s ≠ [] → c ∈ columns df)
  ∧ f = {| columns := columns df; rows := filter (keep_row sel) (rows df) |}.
Proof.
  intros Hf. assert (Hc : ∀ c s, (c, s) ∈ chosen sel → s ≠ [] → c ∈ columns df).
  { unfold filtered in Hf.
    repeat (apply bind_inr_inv in Hf as (? & (? & ->)%filter_isin_inv & Hf);
            cbn [columns] in Hf).
    apply filter_isin_inv in Hf as (? & _). cbn [columns] in *.
    intros c s Hcs. unfold chosen in Hcs.
    rewrite !elem_of_cons, elem_of_nil in Hcs.
    destruct Hcs as [[= -> ->]|[[= -> ->]|[[= -> ->]|[[= -> ->]|[[= -> ->]|[[= -> ->]|[]]]]]]];
      assumption. }
  split; [done|]. destruct df as [cols l]. rewrite filtered_spec in Hf by done.
  by injection Hf.
Qed.

Lemma filter_idemp {A} (P : A → Prop) `{!∀ x, Decision (P x)} (l : list A) :
  filter P (filter P l) = filter P l.
Proof.
  rewrite list_filter_filter. apply list_filter_iff. tauto.
Qed.

(** X1. Filtering with nothing selected returns the frame as it is, whatever
    its columns; filtering a filtered frame again with the same selections
    changes nothing. *)
Theorem filtered_idempotent sel df f :
  filtered sel df = inr f →
  filtered no_selection df = inr df ∧ filtered sel f = inr f.
Proof.
  intros (Hc & ->)%filtered_inv. split.
  - destruct df as [cols l]. rewrite filtered_spec.
    + rewrite filter_all; [done|]. intros r. unfold keep_row, no_selection, chosen.
      repeat constructor.
    + intros c s Hcs Hs. destruct Hs.
      enough (Forall (λ p : string * list string, p.2 = []) (chosen no_selection)) as H
        by (rewrite Forall_forall in H; exact (H _ Hcs)).
      repeat constructor.
  - by rewrite filtered_spec, filter_idemp.
Qed.

Lemma filtered_idempotent_witness :
  filtered no_selection sample_frame = inr sample_frame
  ∧ filtered sample_selections (frame_of (filtered sample_selections sample_frame))
    = inr (frame_of (filtered sample_selections sample_frame)).
Proof.
  apply (filtered_idempotent sample_selections sample_frame). compute_done.
Defined.

Lemma filtered_rows_loaded today file df sel f r :
  load_data today file = inr df → filtered sel df = inr f → r ∈ rows f →
  ∃ rec, rec ∈ records file ∧ r = load_row today (row_of_record (header file) rec).
Proof.
  intros Hload (_ & ->)%filtered_inv [_ Hr]%list_elem_of_filter.
  by eapply loaded_row.
Qed.
End filters_more.

(** ** The choices of the sidebar *)

Section options.
Implicit Types (df : DataFrame) (r : gmap string value) (c : string).

Lemma filter_ext_in {A} (P Q : A → Prop) `{!∀ x, Decision (P x), !∀ x, Decision (Q x)}
    (l : list A) :
  Forall (λ x, P x ↔ Q x) l → filter P l = filter Q l.
Proof.
  induction 1 as [|x l Hx _ IH]; [done|].
  rewrite !filter_cons, IH. destruct (decide (P x)), (decide (Q x)); tauto.
Qed.

Lemma elem_of_texts x (s : list value) : x ∈ texts s ↔ Str x ∈ s.
Proof.
  unfold texts. rewrite list_elem_of_omap. split.
  - intros (v & Hv & Hx). destruct v; try discriminate. by injection Hx as ->.
  - intros Hx. by exists (Str x).
Qed.

Lemma NoDup_texts (s : list value) : NoDup s → NoDup (texts s).
Proof.
  induction 1 as [|v s Hv Hs IH]; [constructor|].
  unfold texts in *. cbn [omap list_omap]. destruct v; try done.
  constructor; [|done]. fold (texts s). by rewrite elem_of_texts.
Qed.

Lemma sidebar_options_ok c df :
  c ∈ columns df →
  sidebar_options c df
  = inr (sort_by String.leb (texts (first_seen ((λ r, r !!! c) <$> rows df)))).
Proof. intros Hc. unfold sidebar_options. by rewrite col_ok, bind_inr. Qed.

Lemma sidebar_options_spec c df :
  c ∈ columns df →
  ∃ o, sidebar_options c df = inr o
       ∧ NoDup o
       ∧ ∀ x, x ∈ o ↔ ∃ r, r ∈ rows df ∧ r !!! c = Str x.
Proof.
  intros Hc. eexists. split; [by apply sidebar_options_ok|].
  destruct (tally_spec ((λ r, r !!! c) <$> rows df)) as (_ & Hnd & Hin & _).
  split.
  - rewrite sort_by_perm. by apply NoDup_texts.
  - intros x. rewrite elem_of_sort_by, elem_of_texts, Hin, list_elem_of_fmap.
    split.
    + intros [(r & Hr & ?) _]. eauto.
    + intros (r & Hr & Hx). split; [|done]. eauto.
Qed.


Lemma loaded_text_cell today file df r c :
  load_data today file = inr df → r ∈ rows df → c ∈ TEXT_COLS →
  r !!! c = NaN ∨ ∃ x, r !!! c = Str x.
Proof.
  intros Hload Hr Hc. destruct (loaded_row _ _ _ _ Hload Hr) as (rec & _ & ->).
  destruct (text_col_plain _ Hc) as (? & ? & ?).
  rewrite load_row_text, row_of_record_lookup by done.
  destruct (parse_cell_cases (raw_field (header file) rec c)) as [->| ->]; eauto.
Qed.

Lemma FILTER_in_TEXT c : c ∈ FILTER_COLS → c ∈ TEXT_COLS.
Proof. revert c. apply Forall_forall. compute_done. Qed.

Lemma TEXT_in_REQUIRED c : c ∈ TEXT_COLS → c ∈ REQUIRED_COLS.
Proof. intros Hc. apply REQUIRED_COLS_split. by left. Qed.

(** X2. The choices a sidebar filter offers for its column are the values found
    in the column of the loaded frame, each once: every cell that is not
    missing is a choice, and a missing value is none. *)
Theorem sidebar_options_distinct_texts today file df c :
  load_data today file = inr df → c ∈ FILTER_COLS →
  ∃ o, sidebar_options c df = inr o
       ∧ NoDup o
       ∧ (∀ x, x ∈ o ↔ ∃ r, r ∈ rows df ∧ r !!! c = Str x)
       ∧ ∀ r, r ∈ rows df → isna (r !!! c) = false → ∃ x, x ∈ o ∧ r !!! c = Str x.
Proof.
  intros Hload Hc. pose proof (loaded_columns _ _ _ Hload) as (Hcols & _ & _).
  assert (Hin : c ∈ columns df).
  { rewrite Forall_forall in Hcols. by apply Hcols, TEXT_in_REQUIRED, FILTER_in_TEXT. }
  destruct (sidebar_options_spec c df Hin) as (o & Ho & Hnd & Hmem).
  exists o. split_and!; [done..|].
  intros r Hr Hna.
  destruct (loaded_text_cell _ _ _ _ c Hload Hr) as [Hn|[x Hx]];
    [by apply FILTER_in_TEXT|by rewrite Hn in Hna|].
  exists x. split; [|done]. apply Hmem. eauto.
Qed.

Lemma sidebar_options_distinct_texts_witness :
  ∃ o, sidebar_options "Project Manager" sample_frame = inr o
       ∧ NoDup o
       ∧ (∀ x, x ∈ o ↔ ∃ r, r ∈ rows sample_frame ∧ r !!! "Project Manager" = Str x)
       ∧ ∀ r, r ∈ rows sample_frame → isna (r !!! "Project Manager") = false
              → ∃ x, x ∈ o ∧ r !!! "Project Manager" = Str x.
Proof.
  apply (sidebar_options_distinct_texts sample_today sample_file sample_frame);
    compute_done.
Defined.

(** X3. Selecting every choice of a filter keeps the rows that have a value in
    its column and drops the rows where it is missing. When the column has
    no value at all there is nothing to select, and the filter keeps every
    row. *)
Theorem select_all_drops_missing today file df c :
  load_data today file = inr df → c ∈ FILTER_COLS →
  ∃ o, sidebar_options c df = inr o
       ∧ (o ≠ [] →
          filter_isin c o df
          = inr {| columns := columns df;
                   rows := filter (λ r, isna (r !!! c) = false) (rows df) |})
       ∧ (o = [] → filter_isin c o df = inr df
                   ∧ Forall (λ r, isna (r !!! c) = true) (rows df)).
Proof.
  intros Hload Hc. pose proof (loaded_columns _ _ _ Hload) as (Hcols & _ & _).
  assert (Hin : c ∈ columns df).
  { rewrite Forall_forall in Hcols. by apply Hcols, TEXT_in_REQUIRED, FILTER_in_TEXT. }
  destruct (sidebar_options_spec c df Hin) as (o & Ho & _ & Hmem).
  exists o. split; [done|].
  assert (Hcell : ∀ r, r ∈ rows df → r !!! c = NaN ∨ ∃ x, r !!! c = Str x).
  { intros r Hr. eapply loaded_text_cell; [done..|by apply FILTER_in_TEXT]. }
  split.
  - intros Hne. destruct df as [cols l]. cbn [columns rows] in *.
    rewrite filter_isin_spec by done. do 2 f_equal.
    apply filter_ext_in. rewrite Forall_forall. intros r Hr.
    destruct (Hcell r Hr) as [->|[x Hx]].
    + split; [by intros [?|[]]|done].
    + rewrite Hx. split; [done|]. intros _. right. apply Hmem. eauto.
  - intros ->. split; [unfold filter_isin; by rewrite decide_True|].
    rewrite Forall_forall. intros r Hr.
    destruct (Hcell r Hr) as [->|[x Hx]]; [done|].
    destruct (not_elem_of_nil x). apply Hmem. eauto.
Qed.

Lemma select_all_drops_missing_witness :
  ∃ o, sidebar_options "Project Current Status" sample_frame = inr o
       ∧ (o ≠ [] →
          filter_isin "Project Current Status" o sample_frame
          = inr {| columns := columns sample_frame;
                   rows := filter (λ r, isna (r !!! "Project Current Status") = false)
                             (rows sample_frame) |})
       ∧ (o = [] → filter_isin "Project Current Status" o sample_frame = inr sample_frame
                   ∧ Forall (λ r, isna (r !!! "Project Current Status") = true)
                       (rows sample_frame)).
Proof.
  apply (select_all_drops_missing sample_today sample_file sample_frame); compute_done.
Defined.
End options.

(** ** The KPI row and the overdue section *)

Section kpi.
Implicit Types (df : DataFrame) (r : gmap string value) (c : string).

Lemma length_filter_fmap {A B} (f : A → B) (P : B → Prop) `{!∀ y, Decision (P y)}
    (l : list A) :
  length (filter P (f <$> l)) = length (filter (λ x, P (f x)) l).
Proof.
  induction l as [|x l IH]; [done|]. cbn [fmap list_fmap].
  rewrite !filter_cons. destruct (decide (P (f x))); simpl; by rewrite IH.
Qed.

Lemma count_eq_ok c x cols l :
  c ∈ cols →
  count_eq c x {| columns := cols; rows := l |}
  = inr (length (filter (λ r, r !!! c = Str x) l)).
Proof.
  intros Hc. unfold count_eq. rewrite col_ok, bind_inr by done. cbn [rows].
  by rewrite length_filter_fmap.
Qed.

Lemma count_overdue_ok cols l :
  "Overdue" ∈ cols →
  count_overdue {| columns := cols; rows := l |}
  = inr (length (filter (λ r, r !!! "Overdue" = Bool true) l)).
Proof.
  intros Hc. unfold count_overdue. rewrite col_ok, bind_inr by done. cbn [rows].
  by rewrite length_filter_fmap.
Qed.

Lemma overdue_df_ok cols l :
  "Overdue" ∈ cols →
  overdue_df {| columns := cols; rows := l |}
  = inr {| columns := cols; rows := filter (λ r, r !!! "Overdue" = Bool true) l |}.
Proof.
  intros Hc. unfold overdue_df. rewrite col_ok, bind_inr by done.
  unfold mret, result_ret, select_rows. cbn [rows columns].
  rewrite <- list_fmap_compose, mask_rows_rowwise. do 2 f_equal.
  apply list_filter_iff. intros r. unfold compose. by rewrite bool_decide_eq_true.
Qed.

Lemma kpi_row_ok cols l :
  "Project Current Status" ∈ cols → "Overdue" ∈ cols →
  kpi_row {| columns := cols; rows := l |}
  = inr {| total_projects := length l;
           live_count := length (filter (λ r, r !!! "Project Current Status" = Str "Live") l);
           on_hold := length (filter (λ r, r !!! "Project Current Status" = Str "On Hold") l);
           withdrawn :=
             length (filter (λ r, r !!! "Project Current Status" = Str "Withdraw") l);
           overdue := length (filter (λ r, r !!! "Overdue" = Bool true) l) |}.
Proof.
  intros Hs Ho. unfold kpi_row.
  by rewrite !count_eq_ok, count_overdue_ok, !bind_inr by done.
Qed.

(** At most one of three properties holds of each element: the three
    counts fit in the length. *)
Lemma three_counts {A} (P Q R : A → Prop)
    `{!∀ x, Decision (P x), !∀ x, Decision (Q x), !∀ x, Decision (R x)} (l : list A) :
  Forall (λ x, ¬ (P x ∧ Q x) ∧ ¬ (P x ∧ R x) ∧ ¬ (Q x ∧ R x)) l →
  length (filter P l) + length (filter Q l) + length (filter R l) ≤ length l.
Proof.
  induction 1 as [|x l Hx _ IH]; [done|]. rewrite !filter_cons.
  destruct (decide (P x)), (decide (Q x)), (decide (R x)); simpl; try lia; tauto.
Qed.

Lemma kpi_row_spec df :
  "Project Current Status" ∈ columns df → "Overdue" ∈ columns df →
  ∃ k, kpi_row df = inr k
       ∧ total_projects k = length (rows df)
       ∧ live_count k + on_hold k + withdrawn k ≤ total_projects k
       ∧ overdue k ≤ total_projects k
       ∧ ∃ o, overdue_df df = inr o ∧ length (rows o) = overdue k.
Proof.
  destruct df as [cols l]. cbn [columns rows]. intros Hs Ho.
  eexists. split; [by apply kpi_row_ok|]. cbn [total_projects live_count on_hold withdrawn overdue].
  split; [done|]. split; [|split].
  - apply three_counts, Forall_forall. intros r _.
    split_and!; intros [-> [=]].
  - apply length_filter.
  - eexists. split; [by apply overdue_df_ok|]. done.
Qed.

Lemma filtered_columns sel df f : filtered sel df = inr f → columns f = columns df.
Proof. by intros (_ & ->)%filtered_inv. Qed.

(** X4. The KPI row of a loaded and filtered frame counts rows of the frame:
    the total is the number of rows; the projects that are live, on hold
    and withdrawn are distinct projects, so the three counts together do
    not exceed the total, nor does the overdue count, which is the number
    of rows of the overdue table. *)
Theorem kpi_counts_fit_total today file sel df f :
  load_data today file = inr df → filtered sel df = inr f →
  ∃ k, kpi_row f = inr k
       ∧ total_projects k = length (rows f)
       ∧ live_count k + on_hold k + withdrawn k ≤ total_projects k
       ∧ overdue k ≤ total_projects k
       ∧ ∃ o, overdue_df f = inr o ∧ length (rows o) = overdue k.
Proof.
  intros Hload Hf. pose proof (loaded_columns _ _ _ Hload) as (Hcols & _ & Ho).
  apply kpi_row_spec; rewrite (filtered_columns _ _ _ Hf); [|done].
  rewrite Forall_forall in Hcols. apply Hcols. compute_done.
Qed.

Lemma kpi_counts_fit_total_witness :
  ∃ k, kpi_row (frame_of (filtered sample_selections sample_frame)) = inr k
       ∧ total_projects k
         = length (rows (frame_of (filtered sample_selections sample_frame)))
       ∧ live_count k + on_hold k + withdrawn k ≤ total_projects k
       ∧ overdue k ≤ total_projects k
       ∧ ∃ o, overdue_df (frame_of (filtered sample_selections sample_frame)) = inr o
              ∧ length (rows o) = overdue k.
Proof.
  apply (kpi_counts_fit_total sample_today sample_file sample_selections sample_frame);
    compute_done.
Defined.

Lemma loaded_overdue_row today r :
  load_row today r !!! "Overdue" = Bool true →
  load_row today r !!! "Project Current Status" ≠ Str "Live"
  ∧ load_row today r !!! "Project Current Status" ≠ Str "Withdraw"
  ∧ isna (load_row today r !!! "Planned End") = false.
Proof.
  rewrite (lookup_total_correct _ _ _ (load_row_overdue_Some _ _)).
  intros [= H]. apply andb_true_iff in H as [H Hst].
  apply andb_true_iff in H as [Hna _].
  apply negb_true_iff in Hna. apply negb_true_iff, isin_cell_live in Hst. tauto.
Qed.

(** X5. In a frame that was loaded and filtered, an overdue project is neither
    live nor withdrawn: the overdue, live and withdrawn counts of the KPI
    row together do not exceed the total. *)
Theorem kpi_overdue_live_withdrawn_fit today file sel df f :
  load_data today file = inr df → filtered sel df = inr f →
  ∃ k, kpi_row f = inr k
       ∧ overdue k + live_count k + withdrawn k ≤ total_projects k.
Proof.
  intros Hload Hf.
  assert (Hrows : ∀ r, r ∈ rows f → ∃ r0, r = load_row today r0).
  { intros r Hr. destruct (filtered_rows_loaded _ _ _ _ _ _ Hload Hf Hr) as (rec & _ & ->).
    eauto. }
  pose proof (loaded_columns _ _ _ Hload) as (Hcols & _ & Ho).
  apply filtered_inv in Hf as (_ & Hf). subst f. cbn [columns rows] in *.
  eexists. split.
  - apply kpi_row_ok; [|done]. rewrite Forall_forall in Hcols. apply Hcols. compute_done.
  - cbn [total_projects live_count withdrawn overdue].
    apply three_counts, Forall_forall. intros r Hr.
    destruct (Hrows r Hr) as (r0 & ->).
    split_and!.
    + intros [(Hl & _ & _)%loaded_overdue_row ?]. done.
    + intros [(_ & Hw & _)%loaded_overdue_row ?]. done.
    + intros [-> [=]].
Qed.

Lemma kpi_overdue_live_withdrawn_fit_witness :
  ∃ k, kpi_row (frame_of (filtered sample_selections sample_frame)) = inr k
       ∧ overdue k + live_count k + withdrawn k ≤ total_projects k.
Proof.
  apply (kpi_overdue_live_withdrawn_fit sample_today sample_file sample_selections
           sample_frame); compute_done.
Defined.
End kpi.

Section overdue_section.
Implicit Types (df : DataFrame) (r : gmap string value) (c : string).

(** X6. The overdue table of a loaded and filtered frame holds, in their order,
    the rows marked overdue; each has a status other than [Live] and
    [Withdraw], and a date in one of the two date columns the table
    shows. *)
Theorem overdue_rows_show_a_date today file sel df f :
  load_data today file = inr df → filtered sel df = inr f →
  ∃ o, overdue_df f = inr o
       ∧ rows o = filter (λ r, r !!! "Overdue" = Bool true) (rows f)
       ∧ sublist (rows o) (rows f)
       ∧ ∀ r, r ∈ rows o →
           r !!! "Project Current Status" ≠ Str "Live"
           ∧ r !!! "Project Current Status" ≠ Str "Withdraw"
           ∧ (isna (r !!! "Revised Timeline") = false
              ∨ isna (r !!! "Target Completion Date") = false).
Proof.
  intros Hload Hf.
  assert (Hrows : ∀ r, r ∈ rows f → ∃ r0, r = load_row today r0).
  { intros r Hr. destruct (filtered_rows_loaded _ _ _ _ _ _ Hload Hf Hr) as (rec & _ & ->).
    eauto. }
  pose proof (loaded_columns _ _ _ Hload) as (_ & _ & Ho).
  apply filtered_inv in Hf as (_ & Hf). subst f. cbn [columns rows] in *.
  eexists. split; [by apply overdue_df_ok|]. cbn [rows].
  split; [done|]. split; [apply sublist_filter|].
  intros r [Hov Hr]%list_elem_of_filter. destruct (Hrows r Hr) as (r0 & ->).
  apply loaded_overdue_row in Hov as (? & ? & Hpe). split; [done|]. split; [done|].
  rewrite load_row_planned_end in Hpe. unfold fillna_cell in Hpe.
  destruct (isna (load_row today r0 !!! "Revised Timeline")); auto.
Qed.

Lemma overdue_rows_show_a_date_witness :
  ∃ o, overdue_df (frame_of (filtered sample_selections sample_frame)) = inr o
       ∧ rows o = filter (λ r, r !!! "Overdue" = Bool true)
                    (rows (frame_of (filtered sample_selections sample_frame)))
       ∧ sublist (rows o) (rows (frame_of (filtered sample_selections sample_frame)))
       ∧ ∀ r, r ∈ rows o →
           r !!! "Project Current Status" ≠ Str "Live"
           ∧ r !!! "Project Current Status" ≠ Str "Withdraw"
           ∧ (isna (r !!! "Revised Timeline") = false
              ∨ isna (r !!! "Target Completion Date") = false).
Proof.
  apply (overdue_rows_show_a_date sample_today sample_file sample_selections
           sample_frame); compute_done.
Defined.

Lemma filter_eq_ok c x cols l :
  (x ≠ "All" → c ∈ cols) →
  filter_eq c x {| columns := cols; rows := l |}
  = inr {| columns := cols;
           rows := filter (λ r, x = "All" ∨ r !!! c = Str x) l |}.
Proof.
  intros Hc. unfold filter_eq. case_decide as Hx.
  - rewrite filter_all; [done|]. intros r. by left.
  - rewrite col_ok, bind_inr by auto. unfold mret, result_ret, select_rows.
    cbn [rows columns]. rewrite <- list_fmap_compose, mask_rows_rowwise. do 2 f_equal.
    apply list_filter_iff. intros r. unfold compose. rewrite bool_decide_eq_true. tauto.
Qed.

(** X7. The two select boxes of the overdue section keep the rows whose owner
    and whose manager are the chosen ones, in their order; the choice
    [All] keeps every owner, or manager, and with [All] in both boxes the
    table is the whole overdue table. *)
Theorem overdue_filtered_keeps_chosen owner manager odf :
  "Business Owner" ∈ columns odf → "Project Manager" ∈ columns odf →
  ∃ t, overdue_filtered owner manager odf = inr t
       ∧ sublist (rows t) (rows odf)
       ∧ (∀ r, r ∈ rows t
            ↔ r ∈ rows odf
              ∧ (owner = "All" ∨ r !!! "Business Owner" = Str owner)
              ∧ (manager = "All" ∨ r !!! "Project Manager" = Str manager))
       ∧ (owner = "All" → manager = "All" → t = odf).
Proof.
  destruct odf as [cols l]. cbn [columns rows]. intros Ho Hm.
  unfold overdue_filtered. rewrite filter_eq_ok, bind_inr, filter_eq_ok by done.
  eexists. split; [done|]. cbn [rows]. split; [|split].
  - etrans; apply sublist_filter.
  - intros r. rewrite !list_elem_of_filter. tauto.
  - intros -> ->. by rewrite !filter_all by (by left).
Qed.

Lemma overdue_filtered_keeps_chosen_witness :
  ∃ t, overdue_filtered "Ann" "All" sample_frame = inr t
       ∧ sublist (rows t) (rows sample_frame)
       ∧ (∀ r, r ∈ rows t
            ↔ r ∈ rows sample_frame
              ∧ ("Ann" = "All" ∨ r !!! "Business Owner" = Str "Ann")
              ∧ ("All" = "All" ∨ r !!! "Project Manager" = Str "All"))
       ∧ ("Ann" = "All" → "All" = "All" → t = sample_frame).
Proof.
  apply (overdue_filtered_keeps_chosen "Ann" "All" sample_frame); compute_done.
Defined.
End overdue_section.

(** ** The charts *)

Section charts.
Implicit Types (df : DataFrame) (r : gmap string value) (c : string).

Lemma sum_bump k (table : list (value * nat)) :
  sum_list_with snd (bump k table) = S (sum_list_with snd table).
Proof.
  induction table as [|[k' n] table IH]; [done|]. cbn [bump].
  case_decide; cbn [sum_list_with snd]; [lia|]. rewrite IH. lia.
Qed.

Lemma sum_tally (s : list value) :
  sum_list_with snd (tally s) = length (filter (λ v, isna v = false) s).
Proof.
  induction s as [|k s IH] using rev_ind; [done|].
  unfold tally in *. rewrite foldl_snoc, filter_app, length_app, filter_cons, filter_nil.
  destruct (isna k) eqn:Hk.
  - rewrite decide_False by done. simpl. lia.
  - rewrite decide_True by done. rewrite sum_bump, IH. simpl. lia.
Qed.

Lemma count_val_present v (s : list value) : v ∈ s → 1 ≤ count_val v s.
Proof.
  intros Hv. unfold count_val.
  assert (Hin : v ∈ filter (λ x, x = v) s) by (by apply list_elem_of_filter).
  destruct (filter _ s); [by apply elem_of_nil in Hin|simpl; lia].
Qed.

(** X12. The counts of a chart add up to the number of rows that have a value
    in the column: every such row is counted once, a row with a missing
    value is counted nowhere, and no value is listed with a count of
    zero. This holds whatever routine sorts the counts. *)
Theorem column_counts_add_up sort c df :
  descending sort → c ∈ columns df →
  ∃ res, column_counts sort c df = inr res
         ∧ sum_list_with snd res
           = length (filter (λ r, isna (r !!! c) = false) (rows df))
         ∧ Forall (λ p, 1 ≤ p.2) res.
Proof.
  intros Hsort Hc. unfold column_counts. rewrite col_ok, bind_inr by done.
  eexists. split; [reflexivity|]. split.
  - unfold value_counts. rewrite (proj1 (Hsort _)), sum_tally. apply length_filter_fmap.
  - rewrite Forall_forall. intros [v n] Hp.
    apply (value_counts_spec sort ((λ r, r !!! c) <$> rows df) Hsort) in Hp as (Hv & _ & ->).
    by apply count_val_present.
Qed.

Lemma column_counts_add_up_witness :
  ∃ res, column_counts keep_ties "Project Current Status" sample_frame = inr res
         ∧ sum_list_with snd res
           = length (filter (λ r, isna (r !!! "Project Current Status") = false)
                       (rows sample_frame))
         ∧ Forall (λ p, 1 ≤ p.2) res.
Proof.
  apply (column_counts_add_up keep_ties "Project Current Status" sample_frame).
  - apply keep_ties_descending.
  - compute_done.
Defined.

(** X13. The top [n] of a column are at most [n] entries, the first of the full
    list of counts, and no value left out has a higher count than a value
    shown. This holds whatever routine sorts the counts. *)
Theorem top_counts_dominate sort c n df :
  descending sort → c ∈ columns df →
  ∃ res top, column_counts sort c df = inr res
             ∧ top_counts sort c n df = inr top
             ∧ length top ≤ n
             ∧ top `prefix_of` res
             ∧ ∀ p q, p ∈ top → q ∈ res → q ∉ top → q.2 ≤ p.2.
Proof.
  intros Hsort Hc. unfold column_counts, top_counts. rewrite col_ok, !bind_inr by done.
  do 2 eexists. split; [reflexivity|]. split; [reflexivity|].
  pose proof (proj2 (proj2 (value_counts_spec sort ((λ r, r !!! c) <$> rows df) Hsort)))
    as Hs.
  set (res := value_counts _ _) in *.
  split; [rewrite length_take; lia|]. split; [apply prefix_take|].
  intros p q Hp Hq Hnq.
  assert (Hdrop : q ∈ drop n res).
  { rewrite <- (take_drop n res) in Hq. apply elem_of_app in Hq as [?|?]; done. }
  rewrite <- (take_drop n res) in Hs.
  exact (StronglySorted_app_1_elem_of _ _ _ _ _ Hs Hp Hdrop).
Qed.

Lemma top_counts_dominate_witness :
  ∃ res top, column_counts keep_ties "Project Manager" sample_frame = inr res
             ∧ mgr_counts keep_ties sample_frame = inr top
             ∧ length top ≤ 10
             ∧ top `prefix_of` res
             ∧ ∀ p q, p ∈ top → q ∈ res → q ∉ top → q.2 ≤ p.2.
Proof.
  apply (top_counts_dominate keep_ties "Project Manager" 10 sample_frame).
  - apply keep_ties_descending.
  - compute_done.
Defined.
End charts.

(** ** The timeline, once more *)

Section timeline_more.
Implicit Types (df : DataFrame) (r : gmap string value) (c : string).

Lemma filter_none {A} (P : A → Prop) `{!∀ x, Decision (P x)} (l : list A) :
  Forall (λ x, ¬ P x) l → filter P l = [].
Proof.
  induction 1 as [|x l Hx _ IH]; [done|]. by rewrite filter_cons_False.
Qed.

(** X14. The timeline shows as many rows as the slider asks for, or all the rows
    with both dates when these are fewer; it is empty exactly when the
    slider is at zero or no row has both dates, and it shows rows of the
    frame only. *)
Theorem timeline_length limit df :
  "Project Initiation Date" ∈ columns df → "Planned End" ∈ columns df →
  ∃ t, timeline_rows limit df = inr t
       ∧ length (rows t)
         = limit `min` length (filter (complete ["Project Initiation Date"; "Planned End"])
                                 (rows df))
       ∧ (rows t = []
          ↔ limit = 0
            ∨ Forall (λ r, ¬ complete ["Project Initiation Date"; "Planned End"] r) (rows df))
       ∧ ∀ r, r ∈ rows t → r ∈ rows df.
Proof.
  destruct df as [cols l]. cbn [columns rows]. intros Hi Hp.
  eexists. split; [by apply timeline_rows_ok|]. cbn [rows].
  set (l' := filter _ l).
  assert (Hlen : length (sort_by (row_leb "Project Initiation Date") (take limit l'))
                 = limit `min` length l') by (by rewrite length_sort_by, length_take).
  split; [done|]. split.
  - rewrite <- length_zero_iff_nil, Hlen. split.
    + intros H. destruct limit as [|n]; [by left|right].
      assert (l' = []) as Hnil by (apply length_zero_iff_nil; lia).
      rewrite Forall_forall. intros r Hr Hc.
      assert (r ∈ l') as Hin by (by apply list_elem_of_filter). rewrite Hnil in Hin.
      by apply elem_of_nil in Hin.
    + intros [->|Hall]; [done|].
      unfold l'. rewrite filter_none by done. simpl. lia.
  - intros r Hr. rewrite elem_of_sort_by in Hr.
    by apply subseteq_take, list_elem_of_filter in Hr as [_ ?].
Qed.

Lemma timeline_length_witness :
  ∃ t, timeline_rows 2 sample_frame = inr t
       ∧ length (rows t)
         = 2 `min` length (filter (complete ["Project Initiation Date"; "Planned End"])
                             (rows sample_frame))
       ∧ (rows t = []
          ↔ 2 = 0
            ∨ Forall (λ r, ¬ complete ["Project Initiation Date"; "Planned End"] r)
                (rows sample_frame))
       ∧ ∀ r, r ∈ rows t → r ∈ rows sample_frame.
Proof. apply (timeline_length 2 sample_frame); compute_done. Defined.

(** X15. When the slider is not below the number of rows with both dates, the
    timeline shows the rows of the timeline of the specification: all the
    rows with both dates, and like it in ascending order of start date.
    (Rows with one start date may stand in another order.) *)
Theorem timeline_shows_all_when_limit_suffices limit df :
  "Project Initiation Date" ∈ columns df → "Planned End" ∈ columns df →
  length (filter (complete ["Project Initiation Date"; "Planned End"]) (rows df)) ≤ limit →
  ∃ t, timeline_rows limit df = inr t
       ∧ rows t ≡ₚ timelineSlice limit df
       ∧ rows t ≡ₚ filter (complete ["Project Initiation Date"; "Planned End"]) (rows df)
       ∧ StronglySorted (λ r1 r2, row_leb "Project Initiation Date" r1 r2 = true) (rows t)
       ∧ StronglySorted (λ r1 r2, row_leb "Project Initiation Date" r1 r2 = true)
           (timelineSlice limit df).
Proof.
  destruct df as [cols l]. cbn [columns rows]. intros Hi Hp Hlen.
  eexists. split; [by apply timeline_rows_ok|]. cbn [rows].
  unfold timelineSlice. cbn [rows].
  rewrite (take_ge (filter _ l)) by done.
  rewrite take_ge by (by rewrite length_sort_by).
  split; [done|]. split; [apply sort_by_perm|].
  assert (StronglySorted (λ r1 r2, row_leb "Project Initiation Date" r1 r2 = true)
            (sort_by (row_leb "Project Initiation Date")
               (filter (complete ["Project Initiation Date"; "Planned End"]) l))); [|done].
  apply (sort_by_sorted _ (λ _ _, True)); [done| | |apply StronglySorted_True].
  - intros x y _. apply value_leb_total.
  - intros x y z _. apply value_leb_trans.
Qed.

Lemma timeline_shows_all_when_limit_suffices_witness :
  ∃ t, timeline_rows 3 sample_frame = inr t
       ∧ rows t ≡ₚ timelineSlice 3 sample_frame
       ∧ rows t ≡ₚ filter (complete ["Project Initiation Date"; "Planned End"])
                      (rows sample_frame)
       ∧ StronglySorted (λ r1 r2, row_leb "Project Initiation Date" r1 r2 = true) (rows t)
       ∧ StronglySorted (λ r1 r2, row_leb "Project Initiation Date" r1 r2 = true)
           (timelineSlice 3 sample_frame).
Proof.
  apply (timeline_shows_all_when_limit_suffices 3 sample_frame); compute_done.
Defined.
End timeline_more.

(** ** The downloads *)

Section downloads.
Implicit Types (df : DataFrame) (r : gmap string value) (c : string).

Lemma export_cols_ok cols' cols l :
  Forall (λ c, c ∈ cols) cols' →
  (d ← select_cols cols' {| columns := cols; rows := l |}; mret (to_csv_bytes d))
  = inr {| header := cols';
           records := (λ r, (λ c, render (r !!! c)) <$> cols') <$> l |}.
Proof.
  intros Hsub. rewrite select_cols_ok, bind_inr by done.
  unfold mret, result_ret, to_csv_bytes, to_csv. cbn [columns rows].
  do 2 f_equal. rewrite <- list_fmap_compose. apply list_fmap_ext. intros i r _.
  unfold compose. cbn [columns]. apply list_fmap_ext.
  intros j c Hc. apply list_elem_of_lookup_2 in Hc.
  by rewrite (lookup_total_list_to_map (λ c, r !!! c)).
Qed.

Lemma isoformat_not_empty t : isoformat t ≠ "".
Proof. unfold isoformat, zfill4. rewrite !string_app_cons. discriminate. Qed.

Lemma loaded_date_cell today r c :
  c ∈ DATE_COLS →
  load_row today r !!! c = NaT ∨ ∃ t, load_row today r !!! c = Ts t.
Proof. intros Hc. rewrite load_row_date by done. apply to_datetime_cell_cases. Qed.

Lemma render_date_not_empty today r c :
  c ∈ DATE_COLS → isna (load_row today r !!! c) = false →
  render (load_row today r !!! c) ≠ "".
Proof.
  intros Hc Hna. destruct (loaded_date_cell today r c Hc) as [H|[t H]]; rewrite H in *.
  - discriminate.
  - apply isoformat_not_empty.
Qed.

Lemma OVERDUE_in_loaded today file df :
  load_data today file = inr df → Forall (λ c, c ∈ columns df) OVERDUE_COLS.
Proof.
  intros (Hcols & _ & _)%loaded_columns. rewrite Forall_forall in Hcols |- *.
  intros c Hc. apply Hcols. revert c Hc. apply Forall_forall. compute_done.
Qed.

(** X9. The download of all overdue projects of a loaded and filtered frame has
    the seven columns of the overdue table and one line of seven fields
    for each overdue project; on every line the target date or the revised
    date is filled in, and the status is neither [Live] nor [Withdraw]. *)
Theorem overdue_download_lines today file sel df f :
  load_data today file = inr df → filtered sel df = inr f →
  ∃ o csv, overdue_df f = inr o
           ∧ export_overdue o = inr csv
           ∧ header csv = OVERDUE_COLS
           ∧ length (records csv) = length (rows o)
           ∧ ∀ rec, rec ∈ records csv →
               length rec = 7
               ∧ ∃ target revised status,
                   rec !! 4 = Some target ∧ rec !! 5 = Some revised
                   ∧ rec !! 6 = Some status
                   ∧ (target ≠ "" ∨ revised ≠ "")
                   ∧ status ≠ "Live" ∧ status ≠ "Withdraw".
Proof.
  intros Hload Hf.
  assert (Hrows : ∀ r, r ∈ rows f →
            ∃ rec, r = load_row today (row_of_record (header file) rec)).
  { intros r Hr. destruct (filtered_rows_loaded _ _ _ _ _ _ Hload Hf Hr) as (rec & _ & ->).
    eauto. }
  pose proof (loaded_columns _ _ _ Hload) as (_ & _ & Ho).
  pose proof (OVERDUE_in_loaded _ _ _ Hload) as Hcols.
  apply filtered_inv in Hf as (_ & Hf). subst f. cbn [columns rows] in *.
  do 2 eexists. split; [by apply overdue_df_ok|].
  split; [by apply export_cols_ok|]. cbn [header records rows].
  split; [done|]. split; [by rewrite length_fmap|].
  intros rec (r & -> & [Hov Hr]%list_elem_of_filter)%list_elem_of_fmap.
  split; [done|]. destruct (Hrows r Hr) as (rec0 & ->).
  do 3 eexists. split; [reflexivity|]. split; [reflexivity|]. split; [reflexivity|].
  apply loaded_overdue_row in Hov as (Hl & Hw & Hpe). split; [|split].
  - rewrite load_row_planned_end in Hpe. unfold fillna_cell in Hpe.
    destruct (isna (load_row today _ !!! "Revised Timeline")) eqn:Hrev.
    + left. apply render_date_not_empty; [compute_done|done].
    + right. apply render_date_not_empty; [compute_done|done].
  - rewrite load_row_text, row_of_record_lookup in * by (compute_done || discriminate).
    destruct (parse_cell_cases (raw_field (header file) rec0 "Project Current Status"))
      as [->|H]; [discriminate|]. rewrite H in *. cbn [render]. congruence.
  - rewrite load_row_text, row_of_record_lookup in * by (compute_done || discriminate).
    destruct (parse_cell_cases (raw_field (header file) rec0 "Project Current Status"))
      as [->|H]; [discriminate|]. rewrite H in *. cbn [render]. congruence.
Qed.

Lemma overdue_download_lines_witness :
  ∃ o csv, overdue_df (frame_of (filtered sample_selections sample_frame)) = inr o
           ∧ export_overdue o = inr csv
           ∧ header csv = OVERDUE_COLS
           ∧ length (records csv) = length (rows o)
           ∧ ∀ rec, rec ∈ records csv →
               length rec = 7
               ∧ ∃ target revised status,
                   rec !! 4 = Some target ∧ rec !! 5 = Some revised
                   ∧ rec !! 6 = Some status
                   ∧ (target ≠ "" ∨ revised ≠ "")
                   ∧ status ≠ "Live" ∧ status ≠ "Withdraw".
Proof.
  apply (overdue_download_lines sample_today sample_file sample_selections sample_frame);
    compute_done.
Defined.

(** X11. The last download works only when the overdue table is not empty: with
    an overdue row in the frame it is the frame in the thirteen required
    columns, one line of thirteen fields for each row; without one the
    function it calls was never defined. *)
Theorem download_filtered_needs_overdue df :
  Forall (λ c, c ∈ columns df) REQUIRED_COLS → "Overdue" ∈ columns df →
  (Forall (λ r, r !!! "Overdue" ≠ Bool true) (rows df)
   → download_filtered df = inl (NameError "to_csv_bytes"))
  ∧ ((∃ r, r ∈ rows df ∧ r !!! "Overdue" = Bool true)
     → ∃ csv, download_filtered df = inr csv
              ∧ header csv = REQUIRED_COLS
              ∧ length (records csv) = length (rows df)
              ∧ Forall (λ rec, length rec = 13) (records csv)).
Proof.
  destruct df as [cols l]. cbn [columns rows]. intros Hcols Ho. split.
  - by apply download_filtered_without_overdue.
  - intros (r & Hr & Hov). unfold download_filtered.
    rewrite overdue_df_ok, bind_inr by done. cbn [rows].
    rewrite decide_False; last first.
    { intros Hnil. assert (r ∈ filter (λ r, r !!! "Overdue" = Bool true) l) as Hin
        by (by apply list_elem_of_filter).
      rewrite Hnil in Hin. by apply elem_of_nil in Hin. }
    eexists. split; [by apply export_filtered_ok|]. cbn [header records].
    split; [done|]. split; [by rewrite length_fmap|].
    rewrite Forall_forall. by intros rec (r' & -> & _)%list_elem_of_fmap.
Qed.

Lemma download_filtered_needs_overdue_witness :
  (Forall (λ r, r !!! "Overdue" ≠ Bool true) (rows sample_frame)
   → download_filtered sample_frame = inl (NameError "to_csv_bytes"))
  ∧ ((∃ r, r ∈ rows sample_frame ∧ r !!! "Overdue" = Bool true)
     → ∃ csv, download_filtered sample_frame = inr csv
              ∧ header csv = REQUIRED_COLS
              ∧ length (records csv) = length (rows sample_frame)
              ∧ Forall (λ rec, length rec = 13) (records csv)).
Proof. apply (download_filtered_needs_overdue sample_frame); compute_done. Defined.
End downloads.

(** ** The select boxes of the overdue section *)

Section selectboxes.
Implicit Types (df : DataFrame) (r : gmap string value) (c : string).

Lemma selectbox_choice_spec odf :
  "Business Owner" ∈ columns odf → "Project Manager" ∈ columns odf →
  rows odf ≠ [] →
  ∃ owners managers,
    selectbox_options "Business Owner" odf = inr ("All" :: owners)
    ∧ selectbox_options "Project Manager" odf = inr ("All" :: managers)
    ∧ (∀ x, x ∈ "All" :: owners →
         ∃ t, overdue_filtered x "All" odf = inr t ∧ rows t ≠ [])
    ∧ (∀ y, y ∈ "All" :: managers →
         ∃ t, overdue_filtered "All" y odf = inr t ∧ rows t ≠ []).
Proof.
  intros Ho Hm Hne.
  destruct (sidebar_options_spec _ _ Ho) as (os & Hos & _ & Hoin).
  destruct (sidebar_options_spec _ _ Hm) as (ms & Hms & _ & Hmin).
  exists os, ms. unfold selectbox_options. rewrite Hos, Hms, !bind_inr.
  split; [done|]. split; [done|].
  assert (Hall : ∃ r, r ∈ rows odf).
  { destruct (rows odf) as [|r l]; [done|]. exists r. left. }
  destruct odf as [cols l]. cbn [columns rows] in *.
  unfold overdue_filtered. split.
  - intros x Hx. rewrite filter_eq_ok, bind_inr, filter_eq_ok by done.
    eexists. split; [reflexivity|]. cbn [rows].
    assert (∃ r, r ∈ l ∧ (x = "All" ∨ r !!! "Business Owner" = Str x)) as (r & Hr & Hrx).
    { apply elem_of_cons in Hx as [->|Hx].
      - destruct Hall as [r Hr]. eauto.
      - apply Hoin in Hx as (r & Hr & ?). eauto. }
    intros Hnil.
    assert (r ∈ filter (λ r, "All" = "All" ∨ r !!! "Project Manager" = Str "All")
                  (filter (λ r, x = "All" ∨ r !!! "Business Owner" = Str x) l)) as Hin.
    { rewrite !list_elem_of_filter. auto. }
    rewrite Hnil in Hin. by apply elem_of_nil in Hin.
  - intros y Hy. rewrite filter_eq_ok, bind_inr, filter_eq_ok by done.
    eexists. split; [reflexivity|]. cbn [rows].
    assert (∃ r, r ∈ l ∧ (y = "All" ∨ r !!! "Project Manager" = Str y)) as (r & Hr & Hry).
    { apply elem_of_cons in Hy as [->|Hy].
      - destruct Hall as [r Hr]. eauto.
      - apply Hmin in Hy as (r & Hr & ?). eauto. }
    intros Hnil.
    assert (r ∈ filter (λ r, y = "All" ∨ r !!! "Project Manager" = Str y)
                  (filter (λ r, "All" = "All" ∨ r !!! "Business Owner" = Str "All") l)) as Hin.
    { rewrite !list_elem_of_filter. auto. }
    rewrite Hnil in Hin. by apply elem_of_nil in Hin.
Qed.

(** X8. When the overdue table of a loaded and filtered frame is not empty,
    each of its two select boxes offers [All] first, and whatever is chosen
    in one box while the other stays at [All], the table shown is not
    empty. *)
Theorem selectbox_choice_shows_rows today file sel df f odf :
  load_data today file = inr df → filtered sel df = inr f →
  overdue_df f = inr odf → rows odf ≠ [] →
  ∃ owners managers,
    selectbox_options "Business Owner" odf = inr ("All" :: owners)
    ∧ selectbox_options "Project Manager" odf = inr ("All" :: managers)
    ∧ (∀ x, x ∈ "All" :: owners →
         ∃ t, overdue_filtered x "All" odf = inr t ∧ rows t ≠ [])
    ∧ (∀ y, y ∈ "All" :: managers →
         ∃ t, overdue_filtered "All" y odf = inr t ∧ rows t ≠ []).
Proof.
  intros Hload Hf Ho Hne.
  pose proof (loaded_columns _ _ _ Hload) as (Hcols & _ & Hov).
  rewrite <- (filtered_columns _ _ _ Hf) in Hcols, Hov.
  destruct f as [cols l]. cbn [columns] in *.
  rewrite overdue_df_ok in Ho by done. injection Ho as <-.
  rewrite Forall_forall in Hcols.
  apply selectbox_choice_spec; [apply Hcols; compute_done..|done].
Qed.

Lemma selectbox_choice_shows_rows_witness :
  ∃ owners managers,
    selectbox_options "Business Owner" (frame_of (overdue_df sample_frame))
    = inr ("All" :: owners)
    ∧ selectbox_options "Project Manager" (frame_of (overdue_df sample_frame))
      = inr ("All" :: managers)
    ∧ (∀ x, x ∈ "All" :: owners →
         ∃ t, overdue_filtered x "All" (frame_of (overdue_df sample_frame)) = inr t
              ∧ rows t ≠ [])
    ∧ (∀ y, y ∈ "All" :: managers →
         ∃ t, overdue_filtered "All" y (frame_of (overdue_df sample_frame)) = inr t
              ∧ rows t ≠ []).
Proof.
  apply (selectbox_choice_shows_rows sample_today sample_file no_selection sample_frame
           sample_frame); compute_done.
Defined.
End selectboxes.

(** ** [load_data], once more *)

Section load_more.
Implicit Types (df : DataFrame) (r : gmap string value) (c : string).

Lemma digit_le_9 a : is_digit a = true → digit a ≤ 9.
Proof.
  unfold is_digit, digit. rewrite andb_true_iff, !Nat.leb_le. lia.
Qed.

Lemma directive_Y_bound s y rest : directive_Y s = Some (y, rest) → y < 10 * 1000.
Proof.
  destruct s as [|a [|b [|x [|d s]]]]; unfold directive_Y; try discriminate.
  destruct (_ && _) eqn:H; intros [= <- <-].
  apply andb_true_iff in H as [H Hd%digit_le_9]. apply andb_true_iff in H as [H Hx%digit_le_9].
  apply andb_true_iff in H as [Ha%digit_le_9 Hb%digit_le_9]. lia.
Qed.

Lemma directive_b_bound s m rest : directive_b s = Some (m, rest) → 1 ≤ m ≤ 12.
Proof.
  destruct s as [|a [|b [|x s]]]; unfold directive_b; try discriminate.
  destruct (list_find _ _) as [[i y]|] eqn:Hfind; intros [= <- <-].
  apply list_find_Some in Hfind as (Hi%lookup_lt_Some & _). simpl in Hi. lia.
Qed.

(** What [strptime] returns is a date of the calendar. *)
Lemma strptime_valid s t : strptime s = Some t → valid_date t.
Proof.
  unfold strptime.
  destruct (directive_d s) as [[d s1]|] eqn:Hd; [rewrite bind_Some|discriminate].
  cbv beta iota.
  destruct (literal "-" s1) as [s2|] eqn:H1; [rewrite bind_Some|discriminate].
  destruct (directive_b s2) as [[m s3]|] eqn:Hb; [rewrite bind_Some|discriminate].
  cbv beta iota.
  destruct (literal "-" s3) as [s4|] eqn:H2; [rewrite bind_Some|discriminate].
  destruct (directive_Y s4) as [[y s5]|] eqn:HY; [rewrite bind_Some|discriminate].
  cbv beta iota. case_decide as Hend; [|discriminate].
  apply directive_b_bound in Hb. apply directive_Y_bound in HY.
  unfold make_date. destruct (_ && _) eqn:H; [|discriminate]. intros [= <-].
  apply andb_true_iff in H as [H ?%Nat.leb_le]. apply andb_true_iff in H as [?%Nat.leb_le ?%Nat.leb_le].
  unfold valid_date. cbn [year month day]. lia.
Qed.

Lemma to_datetime_parse_cell today s :
  to_datetime_cell today (parse_cell s) = NaT
  ∨ to_datetime_cell today (parse_cell s) = Ts today
  ∨ ∃ t, to_datetime_cell today (parse_cell s) = Ts t ∧ strptime s = Some t.
Proof.
  destruct (parse_cell_cases s) as [->| ->]; [by left|]. cbn [to_datetime_cell].
  case_decide; [auto|]. destruct (strptime s) as [t|]; eauto.
Qed.

(** X16. In a loaded frame the three date columns and [Planned End] hold a
    missing value or a date of the calendar with a year from 1 to 9999: a
    text such as 31-Feb-2024 is a missing value, not another day. (The
    day of the call, which a cell [today] or [now] holds, is a date of the
    calendar.) *)
Theorem loaded_dates_are_calendar_dates today file df r c :
  valid_date today →
  load_data today file = inr df → r ∈ rows df →
  c ∈ DATE_COLS ∨ c = "Planned End" →
  r !!! c = NaT ∨ ∃ t, r !!! c = Ts t ∧ valid_date t.
Proof.
  intros Htoday Hload Hr Hc. destruct (loaded_row _ _ _ _ Hload Hr) as (rec & _ & ->).
  assert (Hdate : ∀ c, c ∈ DATE_COLS →
            load_row today (row_of_record (header file) rec) !!! c = NaT
            ∨ ∃ t, load_row today (row_of_record (header file) rec) !!! c = Ts t
                   ∧ valid_date t).
  { intros c' Hc'. rewrite load_row_date, row_of_record_lookup by done.
    destruct (to_datetime_parse_cell today (raw_field (header file) rec c'))
      as [->|[->|(t & -> & Ht)]]; [by left|right..]; eauto using strptime_valid. }
  destruct Hc as [Hc| ->]; [by apply Hdate|].
  rewrite load_row_planned_end. unfold fillna_cell.
  destruct (Hdate "Revised Timeline") as [->|(t & -> & Ht)]; [compute_done| |eauto].
  cbn [isna]. apply Hdate. compute_done.
Qed.

Lemma loaded_dates_are_calendar_dates_witness :
  sample_row !!! "Planned End" = NaT
  ∨ ∃ t, sample_row !!! "Planned End" = Ts t ∧ valid_date t.
Proof.
  apply (loaded_dates_are_calendar_dates sample_today sample_file sample_frame);
    [compute_done|compute_done|compute_done|by right].
Defined.

(** X17. [load_data] keeps the columns of the frame [read_csv] returns in their
    order and puts [Planned End] and [Overdue] after them; a column that
    has one of these two names stays where it is and is overwritten. *)
Theorem loaded_columns_layout today file raw df :
  read_csv file = inr raw → load_data today file = inr df →
  columns raw `prefix_of` columns df
  ∧ (∀ c, c ∈ columns df ↔ c ∈ columns raw ∨ c = "Planned End" ∨ c = "Overdue")
  ∧ ("Planned End" ∉ columns raw → "Overdue" ∉ columns raw →
     columns df = columns raw ++ ["Planned End"; "Overdue"]).
Proof.
  intros Hread (raw' & Hread' & _ & ->)%load_data_inv.
  apply read_csv_inv in Hread as (_ & _ & ->). cbn [columns]. split_and!.
  - unfold add_label. repeat case_decide; try done;
      repeat (apply prefix_app_r); done.
  - intros c. rewrite !elem_of_add_label. tauto.
  - intros Hp Ho. unfold add_label. rewrite (decide_False (P := "Planned End" ∈ _)) by done.
    rewrite decide_False; [by rewrite <- app_assoc|].
    rewrite elem_of_app, list_elem_of_singleton. intros [?|?]; done.
Qed.

Lemma loaded_columns_layout_witness :
  columns sample_raw `prefix_of` columns sample_frame
  ∧ (∀ c, c ∈ columns sample_frame
          ↔ c ∈ columns sample_raw ∨ c = "Planned End" ∨ c = "Overdue")
  ∧ ("Planned End" ∉ columns sample_raw → "Overdue" ∉ columns sample_raw →
     columns sample_frame = columns sample_raw ++ ["Planned End"; "Overdue"]).
Proof.
  apply (loaded_columns_layout sample_today sample_file sample_raw sample_frame);
    compute_done.
Defined.

Lemma load_row_not_overdue today r c :
  c ≠ "Overdue" →
  load_row today r !!! c
  = with_planned_end
      (parse_date_col today "Revised Timeline"
         (parse_date_col today "Target Completion Date"
            (parse_date_col today "Project Initiation Date" r))) !!! c.
Proof. intros Hc. unfold load_row, with_overdue. by rewrite lookup_total_insert_ne. Qed.

(** X18. [load_data] touches the three date columns, [Planned End] and
    [Overdue] only: every other column of the frame [read_csv] returns,
    one of the thirteen required ones or not, is in the loaded frame as it
    was read, row by row. *)
Theorem other_columns_are_kept today file raw df :
  read_csv file = inr raw → load_data today file = inr df →
  length (rows df) = length (rows raw)
  ∧ ∀ i r0, rows raw !! i = Some r0 →
      ∃ r, rows df !! i = Some r
           ∧ ∀ c, c ∈ columns raw →
                  c ∉ DATE_COLS → c ≠ "Planned End" → c ≠ "Overdue" →
                  r !!! c = r0 !!! c.
Proof.
  intros Hread (raw' & Hread' & _ & ->)%load_data_inv.
  rewrite Hread in Hread'. injection Hread' as <-. cbn [rows].
  split; [by rewrite length_fmap|].
  intros i r0 Hi. eexists. split.
  { rewrite list_lookup_fmap, Hi. reflexivity. }
  intros c _ Hd Hp Ho. by apply load_row_text.
Qed.

Lemma other_columns_are_kept_witness :
  length (rows sample_frame) = length (rows sample_raw)
  ∧ ∀ i r0, rows sample_raw !! i = Some r0 →
      ∃ r, rows sample_frame !! i = Some r
           ∧ ∀ c, c ∈ columns sample_raw →
                  c ∉ DATE_COLS → c ≠ "Planned End" → c ≠ "Overdue" →
                  r !!! c = r0 !!! c.
Proof.
  apply (other_columns_are_kept sample_today sample_file sample_raw sample_frame);
    compute_done.
Defined.

Lemma load_data_two_days today today' file df :
  load_data today file = inr df →
  ∃ raw, read_csv file = inr raw
         ∧ df = {| columns := add_label "Overdue" (add_label "Planned End" (header file));
                   rows := load_row today <$> rows raw |}
         ∧ load_data today' file
           = inr {| columns := add_label "Overdue" (add_label "Planned End" (header file));
                    rows := load_row today' <$> rows raw |}.
Proof.
  intros (raw & Hread & Hreq & ->)%load_data_inv. exists raw. split; [done|].
  split; [done|]. by apply load_data_ok.
Qed.

(** A cell is read the same on every day, unless it reads [today] or
    [now]. *)
Lemma to_datetime_cell_days today today' v :
  to_datetime_cell today' v = to_datetime_cell today v
  ∨ (∃ w, w ∈ CLOCK_WORDS ∧ v = Str w
          ∧ to_datetime_cell today v = Ts today
          ∧ to_datetime_cell today' v = Ts today').
Proof.
  destruct v as [| |s|t|b]; cbn [to_datetime_cell]; auto.
  case_decide; [right|left]; eauto.
Qed.

Lemma planned_end_days today today' r :
  load_row today' r !!! "Planned End" = load_row today r !!! "Planned End"
  ∨ load_row today r !!! "Planned End" = Ts today.
Proof.
  rewrite !load_row_planned_end, !load_row_date by compute_done. unfold fillna_cell.
  destruct (to_datetime_cell_days today today' (r !!! "Revised Timeline"))
    as [->|(_ & _ & _ & -> & ->)]; [|by right].
  destruct (isna _); [|by left].
  destruct (to_datetime_cell_days today today' (r !!! "Target Completion Date"))
    as [->|(_ & _ & _ & -> & ->)]; auto.
Qed.

(** X19. The day of the call decides nothing but [Overdue] in a row none of
    whose date cells reads [today] or [now]: loading the same file on
    another day gives the same columns, as many rows and, in such a row,
    the same cells in every other column. *)
Theorem today_decides_overdue_only today today' file raw df :
  read_csv file = inr raw → load_data today file = inr df →
  ∃ df', load_data today' file = inr df'
         ∧ columns df' = columns df
         ∧ length (rows df') = length (rows df)
         ∧ ∀ i r0 r, rows raw !! i = Some r0 → rows df !! i = Some r →
             (∀ c w, c ∈ DATE_COLS → w ∈ CLOCK_WORDS → r0 !!! c ≠ Str w) →
             ∃ r', rows df' !! i = Some r'
                   ∧ ∀ c, c ∈ columns df → c ≠ "Overdue" → r' !!! c = r !!! c.
Proof.
  intros Hread (raw' & Hread' & -> & Hload')%(load_data_two_days today today').
  rewrite Hread in Hread'. injection Hread' as <-.
  eexists. split; [exact Hload'|]. cbn [columns rows]. split; [done|].
  split; [by rewrite !length_fmap|].
  intros i r0 r Hi Hr Hplain. rewrite list_lookup_fmap, Hi in Hr |- *.
  injection Hr as <-. eexists. split; [reflexivity|].
  assert (Hdate : ∀ c, c ∈ DATE_COLS →
            load_row today' r0 !!! c = load_row today r0 !!! c).
  { intros c Hc. rewrite !load_row_date by done.
    destruct (to_datetime_cell_days today today' (r0 !!! c))
      as [->|(w & Hw & Hv & _)]; [done|]. by destruct (Hplain c w). }
  intros c _ Hc.
  destruct (decide (c ∈ DATE_COLS)) as [Hd|Hd]; [by apply Hdate|].
  destruct (decide (c = "Planned End")) as [->|Hp].
  - rewrite !load_row_planned_end. by rewrite !Hdate by compute_done.
  - by rewrite !load_row_text.
Qed.

Lemma today_decides_overdue_only_witness :
  ∃ df', load_data {| year := 2019; month := 12; day := 31 |} sample_file = inr df'
         ∧ columns df' = columns sample_frame
         ∧ length (rows df') = length (rows sample_frame)
         ∧ ∀ i r0 r, rows sample_raw !! i = Some r0 → rows sample_frame !! i = Some r →
             (∀ c w, c ∈ DATE_COLS → w ∈ CLOCK_WORDS → r0 !!! c ≠ Str w) →
             ∃ r', rows df' !! i = Some r'
                   ∧ ∀ c, c ∈ columns sample_frame → c ≠ "Overdue" → r' !!! c = r !!! c.
Proof.
  apply (today_decides_overdue_only sample_today _ sample_file sample_raw sample_frame);
    compute_done.
Defined.

Lemma lt_cell_later today today' v :
  timestamp_leb today today' = true → lt_cell today v = true → lt_cell today' v = true.
Proof.
  destruct v; try done. cbn [lt_cell].
  rewrite timestamp_leb_le, !timestamp_ltb_lt. lia.
Qed.

(** X20. A project that is overdue on one day is overdue on every later day, as
    long as the file stays the same. *)
Theorem overdue_stays_overdue today today' file df :
  timestamp_leb today today' = true →
  load_data today file = inr df →
  ∃ df', load_data today' file = inr df'
         ∧ ∀ i r, rows df !! i = Some r → r !!! "Overdue" = Bool true →
             ∃ r', rows df' !! i = Some r' ∧ r' !!! "Overdue" = Bool true.
Proof.
  intros Hle (raw & _ & -> & Hload')%(load_data_two_days today today').
  eexists. split; [exact Hload'|]. cbn [rows].
  intros i r Hi Hov. rewrite list_lookup_fmap in Hi |- *.
  destruct (rows raw !! i) as [r0|]; [|discriminate]. injection Hi as <-.
  eexists. split; [reflexivity|].
  rewrite (lookup_total_correct _ _ _ (load_row_overdue_Some today _)) in Hov.
  rewrite (lookup_total_correct _ _ _ (load_row_overdue_Some today' _)).
  rewrite (load_row_text today _ "Project Current Status") in Hov by compute_done.
  rewrite (load_row_text today' _ "Project Current Status") by compute_done.
  injection Hov as Hov. apply andb_true_iff in Hov as [Hov Hst].
  apply andb_true_iff in Hov as [Hna Hlt].
  destruct (planned_end_days today today' r0) as [-> | Hpe].
  - by rewrite Hna, (lt_cell_later _ _ _ Hle Hlt), Hst.
  - rewrite Hpe in Hlt. cbn [lt_cell] in Hlt. by rewrite timestamp_ltb_irrefl in Hlt.
Qed.

Lemma overdue_stays_overdue_witness :
  ∃ df', load_data {| year := 2030; month := 1; day := 1 |} sample_file = inr df'
         ∧ ∀ i r, rows sample_frame !! i = Some r → r !!! "Overdue" = Bool true →
             ∃ r', rows df' !! i = Some r' ∧ r' !!! "Overdue" = Bool true.
Proof.
  apply (overdue_stays_overdue sample_today _ sample_file sample_frame); compute_done.
Defined.

Lemma read_csv_error file e :
  read_csv file = inl e → e = EmptyDataError ∨ ∃ n, e = ParserError n.
Proof.
  unfold read_csv. case_decide; [intros [= <-]; by left|].
  destruct (list_find _ _) as [[i rec]|]; [|discriminate]. intros [= <-]. eauto.
Qed.

(** X21. The error for missing columns names them in the order of the list of
    required columns, each once, and names at least one. *)
Theorem missing_columns_in_order today file missing :
  load_data today file = inl (ValueError missing) →
  missing ≠ [] ∧ sublist missing REQUIRED_COLS ∧ NoDup missing
  ∧ Forall (λ c, c ∉ header file) missing.
Proof.
  intros H. destruct (read_csv file) as [e|raw] eqn:Hread.
  { unfold load_data in H. rewrite Hread in H. cbn in H.
    apply read_csv_error in Hread. destruct Hread as [->|[n ->]]; discriminate. }
  destruct (decide (Forall (λ c, c ∈ header file) REQUIRED_COLS)) as [Hreq|Hreq].
  { rewrite (load_data_ok _ _ _ Hread Hreq) in H. discriminate. }
  rewrite (load_data_missing _ _ _ Hread Hreq) in H. injection H as <-.
  split_and!.
  - intros Hnil. apply Hreq, Forall_forall. intros c Hc.
    destruct (decide (c ∈ header file)) as [|Hn]; [done|].
    by destruct (filter_nil_not_elem_of _ _ c Hnil Hn).
  - apply sublist_filter.
  - apply NoDup_filter. compute_done.
  - rewrite Forall_forall. by intros c [? _]%list_elem_of_filter.
Qed.

Lemma missing_columns_in_order_witness :
  ["Name"; "Objective"] ≠ [] ∧ sublist ["Name"; "Objective"] REQUIRED_COLS
  ∧ NoDup ["Name"; "Objective"]
  ∧ Forall (λ c, c ∉ header sample_short_file) ["Name"; "Objective"].
Proof.
  apply (missing_columns_in_order sample_today sample_short_file). compute_done.
Defined.
End load_more.
